(** * A retrieval-augmented document assistant: client model and core contracts

    The React client (AuthContext, AuthCallback, RAGInterface) is embedded
    from its sources as state-passing programs over an explicit client
    state: every [useState] cell is a field, every handler a statement
    that changes the state, may throw, and is handed what the environment
    answers (the outcome of a [fetch], the result of [window.confirm]).
    Strings are the UTF-8 bytes of the program's strings.  A listener
    that runs after the render that made it (the load listener of an
    upload) is handed the token of that render.  What a handler does to
    the page outside its state (console output, timers, the progress bar,
    the file input element) is left out.

    The server-side core (session authority, chunk store, index manager,
    ingestion pipeline, query engine) is not part of the sources at hand;
    the parts the properties below need are modelled from the
    specification and marked as such. *)

From Stdlib Require Import Ascii String.
From stdpp Require Import gmap strings list fin_maps pretty.

Open Scope string_scope.
Open Scope nat_scope.
Open Scope list_scope.

(** ** JavaScript values and string helpers *)

Module Js.

(** A value that is [null], [undefined] or a string: what the client keeps
    in its [token] state and reads from optional JSON fields. *)
Inductive jsval :=
| Null
| Undefined
| Str (s : string).

(** [String(v)], as performed by template literals and by
    [localStorage.setItem]. *)
Definition to_String (v : jsval) : string :=
  match v with
  | Null => "null"
  | Undefined => "undefined"
  | Str s => s
  end.

(** Truthiness of a string-or-nullish value: the empty string is falsy. *)
Definition truthy (v : jsval) : bool :=
  match v with
  | Str s => negb (String.eqb s "")
  | _ => false
  end.

(** [searchParams.get(k)] and [localStorage.getItem(k)] give a string or
    [null]. *)
Definition of_nullable (o : option string) : jsval :=
  match o with
  | Some s => Str s
  | None => Null
  end.

(** An optional JSON field read as a property: absent means
    [undefined]. *)
Definition of_field (o : option string) : jsval :=
  match o with
  | Some s => Str s
  | None => Undefined
  end.

(** [v || d] where [d] is a string. *)
Definition or_else (v : jsval) (d : string) : string :=
  match v with
  | Str s => if String.eqb s "" then d else s
  | _ => d
  end.

(** [hay.includes(needle)] *)
Fixpoint includes (needle hay : string) : bool :=
  String.prefix needle hay ||
  match hay with
  | EmptyString => false
  | String _ hay' => includes needle hay'
  end.

(** [s.endsWith(suffix)] *)
Definition endsWith (suffix s : string) : bool :=
  let n := String.length s in
  let k := String.length suffix in
  (k <=? n) && String.eqb (String.substring (n - k) k s) suffix.

Definition lower_ascii (c : ascii) : ascii :=
  let n := nat_of_ascii c in
  if (65 <=? n) && (n <=? 90) then ascii_of_nat (n + 32) else c.

(** [s.toLowerCase()] on the ASCII letters; other bytes are kept. *)
Fixpoint toLowerCase (s : string) : string :=
  match s with
  | EmptyString => EmptyString
  | String c s' => String (lower_ascii c) (toLowerCase s')
  end.

(** A string given by the numbers of its bytes. *)
Definition bytes (l : list nat) : string :=
  string_of_list_ascii (map ascii_of_nat l).

(** The white space that [String.prototype.trim] strips, each character
    by its UTF-8 bytes: U+0009 to U+000D, U+0020, U+00A0, U+1680, U+2000
    to U+200A, U+2028, U+2029, U+202F, U+205F, U+3000 and U+FEFF. *)
Definition white_space : list string :=
  map bytes
    [[9]; [10]; [11]; [12]; [13]; [32]; [194; 160]; [225; 154; 128];
     [226; 128; 128]; [226; 128; 129]; [226; 128; 130]; [226; 128; 131];
     [226; 128; 132]; [226; 128; 133]; [226; 128; 134]; [226; 128; 135];
     [226; 128; 136]; [226; 128; 137]; [226; 128; 138];
     [226; 128; 168]; [226; 128; 169]; [226; 128; 175]; [226; 129; 159];
     [227; 128; 128]; [239; 187; 191]].

Definition is_white (w : string) : bool := existsb (String.eqb w) white_space.

(** [s.trimStart()]: white space characters of one, two or three bytes
    are taken off the front as long as there are any. *)
Fixpoint trimStart (s : string) : string :=
  match s with
  | EmptyString => EmptyString
  | String a s1 =>
      if is_white (String a EmptyString) then trimStart s1
      else
        match s1 with
        | EmptyString => s
        | String b s2 =>
            if is_white (String a (String b EmptyString)) then trimStart s2
            else
              match s2 with
              | EmptyString => s
              | String c s3 =>
                  if is_white (String a (String b (String c EmptyString)))
                  then trimStart s3
                  else s
              end
        end
  end.

(** [s.trimEnd()]: the string is cut at the first place from which only
    white space follows. *)
Fixpoint trimEnd (s : string) : string :=
  match s with
  | EmptyString => EmptyString
  | String a s1 =>
      if String.eqb (trimStart s) EmptyString then EmptyString
      else String a (trimEnd s1)
  end.

(** [s.trim()] *)
Definition trim (s : string) : string := trimEnd (trimStart s).

End Js.

(** ** JSON text written by the client *)

Module JSON.

(** The client only serialises flat objects whose values are strings:
    [{ username }] and [{ question }]. *)
Definition object := list (string * string).

Definition hex_digit (n : nat) : ascii :=
  if n <? 10 then ascii_of_nat (48 + n) else ascii_of_nat (87 + n).

(** Escaping of one character inside a JSON string literal. *)
Definition escape (c : ascii) : string :=
  let n := nat_of_ascii c in
  if n =? 34 then String "\" (String c EmptyString)
  else if n =? 92 then "\\"
  else if n =? 8 then "\b"
  else if n =? 9 then "\t"
  else if n =? 10 then "\n"
  else if n =? 12 then "\f"
  else if n =? 13 then "\r"
  else if n <? 32 then
    "\u00" +:+ String (hex_digit (n / 16)) (String (hex_digit (n mod 16)) EmptyString)
  else String c EmptyString.

Fixpoint escape_all (s : string) : string :=
  match s with
  | EmptyString => EmptyString
  | String c s' => escape c +:+ escape_all s'
  end.

Definition dquote : string := String (ascii_of_nat 34) EmptyString.

Definition quote (s : string) : string := dquote +:+ escape_all s +:+ dquote.

Fixpoint members (l : object) : string :=
  match l with
  | [] => ""
  | [(k, v)] => quote k +:+ ":" +:+ quote v
  | (k, v) :: rest => quote k +:+ ":" +:+ quote v +:+ "," +:+ members rest
  end.

(** [JSON.stringify(o)] *)
Definition stringify (o : object) : string := "{" +:+ members o +:+ "}".

End JSON.

(** ** HTTP requests and responses as the client sees them *)

Module Http.

Record File := { name : string; content : string }.

Inductive Body :=
| NoBody
| FormUrlEncoded (fields : list (string * string))
| JsonBody (o : JSON.object)
| Multipart (parts : list (string * File)).

Record Request := {
  method : string;
  url : string;
  headers : list (string * string);
  body : Body
}.

(** The fields the client reads from the JSON bodies it receives, at the
    types it reads them at: a string, a list of strings, or absent, which
    reads as [undefined]. *)
Record Json := {
  detail : option string;
  access_token : option string;
  files : option (list string);
  answer : option string;
  sources : option (list string)
}.

(** A response: its status and what [response.json()] (or [JSON.parse])
    makes of its text, either the parsed object or the message of the
    [SyntaxError] it throws. *)
Record Response := {
  status : nat;
  json : string + Json
}.

(** [response.ok] *)
Definition ok (r : Response) : bool := (200 <=? status r) && (status r <=? 299).

(** What [await fetch(...)] gives: the promise rejects with an error
    message (network failure) or resolves with a response, whatever its
    status. *)
Inductive Fetched :=
| Rejects (message : string)
| Resolves (r : Response).

(** [headers[k]] of a request. *)
Fixpoint header (k : string) (hs : list (string * string)) : option string :=
  match hs with
  | [] => None
  | (k', v) :: hs' => if String.eqb k k' then Some v else header k hs'
  end.

End Http.

(** ** Statements that change the client state and may throw *)

Module Eff.

Inductive completion (A : Type) :=
| Returned (a : A)
| Threw (message : string).
Arguments Returned {A} a.
Arguments Threw {A} message.

Definition M (S A : Type) : Type := S → completion A * S.

Definition ret {S A} (a : A) : M S A := λ s, (Returned a, s).

Definition bind {S A B} (k : A → M S B) (m : M S A) : M S B :=
  λ s, match m s with
       | (Returned a, s') => k a s'
       | (Threw e, s') => (Threw e, s')
       end.

#[global] Instance M_ret S : MRet (M S) := @ret S.
#[global] Instance M_bind S : MBind (M S) := @bind S.

Definition throw {S A} (message : string) : M S A := λ s, (Threw message, s).

(** [try { m } catch (err) { handler(err.message) }] *)
Definition try_catch {S A} (m : M S A) (handler : string → M S A) : M S A :=
  λ s, match m s with
       | (Returned a, s') => (Returned a, s')
       | (Threw e, s') => handler e s'
       end.

Definition modify {S} (f : S → S) : M S unit := λ s, (Returned tt, f s).

Definition get {S} : M S S := λ s, (Returned s, s).

Definition when {S} (b : bool) (m : M S unit) : M S unit :=
  if b then m else ret tt.

End Eff.

(** ** The client state *)

Module Client.
Import Js Http Eff.

Record UserData := { username : string }.

Inductive Sender := user_sender | bot_sender.

(** A chat message; [sources] and [isError] are absent on the messages
    that do not set them. *)
Record Message := {
  sender : Sender;
  text : jsval;
  msg_sources : option (list string);
  isError : bool
}.

(** [localStorage]: the stored items and the room the browser grants,
    counted in characters of keys and values. *)
Record Storage := {
  items : gmap string string;
  quota : nat
}.

(** State of [AuthProvider]. *)
Record Auth := {
  user : option UserData;
  token : jsval;
  auth_loading : bool
}.

(** State of [RAGInterface]. *)
Record Rag := {
  messages : list Message;
  question : string;
  loading : bool;
  fileUploaded : bool;
  uploadStatus : string;
  uploadedFiles : list string;
  uploadProgress : nat;
  error : string;
  isUploading : bool
}.

Record State := {
  localStorage : Storage;
  auth : Auth;
  rag : Rag;
  callback_error : option string;   (* [error] of [AuthCallback] *)
  navigated : list string;          (* calls of [navigate], oldest first *)
  sent : list Request               (* requests issued, oldest first *)
}.

Definition with_storage (f : Storage → Storage) (c : State) : State :=
  {| localStorage := f (localStorage c); auth := auth c; rag := rag c;
     callback_error := callback_error c; navigated := navigated c; sent := sent c |}.

Definition with_auth (f : Auth → Auth) (c : State) : State :=
  {| localStorage := localStorage c; auth := f (auth c); rag := rag c;
     callback_error := callback_error c; navigated := navigated c; sent := sent c |}.

Definition with_rag (f : Rag → Rag) (c : State) : State :=
  {| localStorage := localStorage c; auth := auth c; rag := f (rag c);
     callback_error := callback_error c; navigated := navigated c; sent := sent c |}.

Definition with_callback_error (e : option string) (c : State) : State :=
  {| localStorage := localStorage c; auth := auth c; rag := rag c;
     callback_error := e; navigated := navigated c; sent := sent c |}.

Definition with_navigated (f : list string → list string) (c : State) : State :=
  {| localStorage := localStorage c; auth := auth c; rag := rag c;
     callback_error := callback_error c; navigated := f (navigated c); sent := sent c |}.

Definition with_sent (f : list Request → list Request) (c : State) : State :=
  {| localStorage := localStorage c; auth := auth c; rag := rag c;
     callback_error := callback_error c; navigated := navigated c; sent := f (sent c) |}.

Definition initial_rag : Rag :=
  {| messages := []; question := ""; loading := false; fileUploaded := false;
     uploadStatus := ""; uploadedFiles := []; uploadProgress := 0;
     error := ""; isUploading := false |}.

(** The state the [useState] initialisers give over a given storage,
    before any effect has run:
    [useState(localStorage.getItem('token'))]. *)
Definition initial (ls : Storage) : State :=
  {| localStorage := ls;
     auth := {| user := None; token := of_nullable (items ls !! "token");
                auth_loading := true |};
     rag := initial_rag;
     callback_error := None; navigated := []; sent := [] |}.

Abbreviation Act := (Eff.M State).

(** *** localStorage *)

Definition storage_size (m : gmap string string) : nat :=
  map_fold (λ k v acc, String.length k + String.length v + acc) 0 m.

(** [localStorage.setItem(k, v)]: throws when the browser has no room
    for the item. *)
Definition setItem (k v : string) : Act unit :=
  c ← get;
  let m := <[k := v]> (items (localStorage c)) in
  if storage_size m <=? quota (localStorage c)
  then modify (with_storage (λ ls, {| items := m; quota := quota ls |}))
  else throw "QuotaExceededError".

(** [localStorage.removeItem(k)] *)
Definition removeItem (k : string) : Act unit :=
  modify (with_storage (λ ls, {| items := delete k (items ls); quota := quota ls |})).

(** *** Network *)

(** The synchronous part of [fetch(url, init)] and of [xhr.send]: the
    request leaves. *)
Definition send (r : Request) : Act unit :=
  modify (with_sent (λ l, l ++ [r])).

(** [await] on the promise of a [fetch]. *)
Definition await (answer : Fetched) : Act Response :=
  match answer with
  | Rejects e => throw e
  | Resolves resp => mret resp
  end.

(** [await fetch(url, init)] *)
Definition fetch (r : Request) (answer : Fetched) : Act Response :=
  send r;; await answer.

(** [await response.json()] *)
Definition response_json (r : Response) : Act Json :=
  match json r with
  | inl e => throw e
  | inr j => mret j
  end.

Definition API_URL : string := "/api".

(** [`Bearer ${token}`] *)
Definition bearer (t : jsval) : string := "Bearer " +:+ to_String t.

(** [m] runs to completion, normally or not, and the continuation [k]
    of a promise that [m] left pending runs afterwards; what [k] throws
    is nobody's to catch. *)
Definition then_settle {A} (m : Act A) (k : Act unit) : Act A :=
  λ c, let '(r, c') := m c in (r, snd (k c')).

End Client.

(** ** AuthContext *)

Module AuthContext.
Import Js Http Eff Client.

Definition setToken (v : jsval) : Act unit :=
  modify (with_auth (λ a,
    {| user := user a; token := v; auth_loading := auth_loading a |})).

Definition setUser (u : option UserData) : Act unit :=
  modify (with_auth (λ a,
    {| user := u; token := token a; auth_loading := auth_loading a |})).

Definition login_request (username password : string) : Request :=
  {| method := "POST";
     url := API_URL +:+ "/token";
     headers := [("Content-Type", "application/x-www-form-urlencoded")];
     body := FormUrlEncoded [("username", username); ("password", password)] |}.

Definition login (username password : string) (answer : Fetched) : Act unit :=
  response ← fetch (login_request username password) answer;
  if negb (ok response) then
    error ← response_json response;
    throw (or_else (of_field (detail error)) "Login failed")
  else
    data ← response_json response;
    setItem "token" (to_String (of_field (access_token data)));;
    setItem "user_data" (JSON.stringify [("username", username)]);;
    setToken (of_field (access_token data));;
    setUser (Some {| username := username |}).

Definition register_request (username email password : string) : Request :=
  {| method := "POST";
     url := API_URL +:+ "/register";
     headers := [("Content-Type", "application/json")];
     body := JsonBody [("username", username); ("email", email); ("password", password)] |}.

Definition register (username email password : string) (answer : Fetched) : Act Json :=
  response ← fetch (register_request username email password) answer;
  if negb (ok response) then
    error ← response_json response;
    throw (or_else (of_field (detail error)) "Registration failed")
  else
    response_json response.

Definition loginWithToken (token : jsval) (username : string) : Act unit :=
  setItem "token" (to_String token);;
  setItem "user_data" (JSON.stringify [("username", username)]);;
  setToken token;;
  setUser (Some {| username := username |}).

Definition logout : Act unit :=
  removeItem "token";;
  removeItem "user_data";;
  setToken Null;;
  setUser None.

Definition setLoading (b : bool) : Act unit :=
  modify (with_auth (λ a,
    {| user := user a; token := token a; auth_loading := b |})).

(** The effect of [AuthProvider], run when it mounts and when the token
    changes: with a token, the user is restored from ['user_data'].
    [parse] is [JSON.parse] on the stored text, at the shape the
    application reads a user at (an object with a username, or [null]);
    [inl] is the message of the [SyntaxError] it throws. *)
Definition restore (parse : string → string + option UserData) : Act unit :=
  c ← get;
  when (truthy (token (auth c)))
    (let savedUser := of_nullable (items (localStorage c) !! "user_data") in
     when (truthy savedUser)
       (match parse (to_String savedUser) with
        | inl message => throw message
        | inr u => setUser u
        end));;
  setLoading false.

(** The application once [AuthProvider] has mounted over a storage: the
    initial state after the effect, which is when the children are first
    rendered. *)
Definition mounted (parse : string → string + option UserData) (ls : Storage)
  : completion unit * State :=
  restore parse (initial ls).

End AuthContext.

(** ** AuthCallback *)

Module AuthCallback.
Import Js Http Eff Client.

(** [searchParams.get(k)]: the first value given for [k], or [null]. *)
Fixpoint searchParams_get (k : string) (params : list (string * string)) : jsval :=
  match params with
  | [] => Null
  | (k', v) :: rest => if String.eqb k k' then Str v else searchParams_get k rest
  end.

Definition setError (e : string) : Act unit :=
  modify (with_callback_error (Some e)).

Definition navigate (path : string) : Act unit :=
  modify (with_navigated (λ l, l ++ [path])).

(** The effect run when the callback route is shown. *)
Definition AuthCallback (searchParams : list (string * string)) : Act unit :=
  let token := searchParams_get "token" searchParams in
  let username := or_else (searchParams_get "username" searchParams) "User" in
  if truthy token then
    try_catch
      (AuthContext.loginWithToken token username;;
       navigate "/")
      (λ _, setError "Failed to process login token.")
  else
    setError "Authentication failed. No token received from server.".

End AuthCallback.

(** ** RAGInterface *)

Module RAGInterface.
Import Js Http Eff Client.

Definition setMessages (f : list Message → list Message) : Act unit :=
  modify (with_rag (λ r,
    {| messages := f (messages r); question := question r; loading := loading r;
       fileUploaded := fileUploaded r; uploadStatus := uploadStatus r;
       uploadedFiles := uploadedFiles r; uploadProgress := uploadProgress r;
       error := error r; isUploading := isUploading r |})).

Definition setQuestion (q : string) : Act unit :=
  modify (with_rag (λ r,
    {| messages := messages r; question := q; loading := loading r;
       fileUploaded := fileUploaded r; uploadStatus := uploadStatus r;
       uploadedFiles := uploadedFiles r; uploadProgress := uploadProgress r;
       error := error r; isUploading := isUploading r |})).

Definition setLoading (b : bool) : Act unit :=
  modify (with_rag (λ r,
    {| messages := messages r; question := question r; loading := b;
       fileUploaded := fileUploaded r; uploadStatus := uploadStatus r;
       uploadedFiles := uploadedFiles r; uploadProgress := uploadProgress r;
       error := error r; isUploading := isUploading r |})).

Definition setFileUploaded (b : bool) : Act unit :=
  modify (with_rag (λ r,
    {| messages := messages r; question := question r; loading := loading r;
       fileUploaded := b; uploadStatus := uploadStatus r;
       uploadedFiles := uploadedFiles r; uploadProgress := uploadProgress r;
       error := error r; isUploading := isUploading r |})).

Definition setUploadStatus (s : string) : Act unit :=
  modify (with_rag (λ r,
    {| messages := messages r; question := question r; loading := loading r;
       fileUploaded := fileUploaded r; uploadStatus := s;
       uploadedFiles := uploadedFiles r; uploadProgress := uploadProgress r;
       error := error r; isUploading := isUploading r |})).

Definition setUploadedFiles (l : list string) : Act unit :=
  modify (with_rag (λ r,
    {| messages := messages r; question := question r; loading := loading r;
       fileUploaded := fileUploaded r; uploadStatus := uploadStatus r;
       uploadedFiles := l; uploadProgress := uploadProgress r;
       error := error r; isUploading := isUploading r |})).

Definition setUploadProgress (n : nat) : Act unit :=
  modify (with_rag (λ r,
    {| messages := messages r; question := question r; loading := loading r;
       fileUploaded := fileUploaded r; uploadStatus := uploadStatus r;
       uploadedFiles := uploadedFiles r; uploadProgress := n;
       error := error r; isUploading := isUploading r |})).

Definition setError (e : string) : Act unit :=
  modify (with_rag (λ r,
    {| messages := messages r; question := question r; loading := loading r;
       fileUploaded := fileUploaded r; uploadStatus := uploadStatus r;
       uploadedFiles := uploadedFiles r; uploadProgress := uploadProgress r;
       error := e; isUploading := isUploading r |})).

Definition setIsUploading (b : bool) : Act unit :=
  modify (with_rag (λ r,
    {| messages := messages r; question := question r; loading := loading r;
       fileUploaded := fileUploaded r; uploadStatus := uploadStatus r;
       uploadedFiles := uploadedFiles r; uploadProgress := uploadProgress r;
       error := error r; isUploading := b |})).

(** The request of both [fetchFiles]: a GET of [/api/files]. *)
Definition files_request (t : jsval) : Request :=
  {| method := "GET";
     url := API_URL +:+ "/files";
     headers := [("Authorization", bearer t)];
     body := NoBody |}.

Definition upload_request (t : jsval) (files : list File) : Request :=
  {| method := "POST";
     url := API_URL +:+ "/upload";
     headers := [("Authorization", bearer t)];
     body := Multipart (map (λ f, ("files", f)) files) |}.

Definition ask_request (t : jsval) (question : string) : Request :=
  {| method := "POST";
     url := API_URL +:+ "/ask";
     headers := [("Content-Type", "application/json"); ("Authorization", bearer t)];
     body := JsonBody [("question", question)] |}.

Definition reset_request (t : jsval) : Request :=
  {| method := "POST";
     url := API_URL +:+ "/reset";
     headers := [("Authorization", bearer t)];
     body := NoBody |}.

(** The effect that loads the file list when the component mounts or the
    token changes. *)
Definition initial_fetchFiles (answer : Fetched) : Act unit :=
  c ← get;
  when (truthy (token (auth c)))
    (try_catch
       (response ← fetch (files_request (token (auth c))) answer;
        when (ok response)
          (data ← response_json response;
           setUploadedFiles (default [] (files data));;
           when (match files data with Some (_ :: _) => true | _ => false end)
             (setFileUploaded true)))
       (λ _, mret tt)).

(** What [fetchFiles] does once its request has an answer. *)
Definition fetchFiles_settle (answer : Fetched) : Act unit :=
  try_catch
    (response ← await answer;
     when (ok response)
       (data ← response_json response;
        setUploadedFiles (default [] (files data))))
    (λ _, mret tt).

(** [fetchFiles] as the render in which the token was [t] defines it:
    the token it sends is the one of that render. *)
Definition fetchFiles (t : jsval) (answer : Fetched) : Act unit :=
  send (files_request t);;
  fetchFiles_settle answer.

Definition is_pdf_name (f : File) : bool :=
  endsWith ".pdf" (toLowerCase (name f)).

(** [uploadFile], up to and including [xhr.send(formData)]. *)
Definition uploadFile (files : list File) : Act unit :=
  if length files =? 0 then mret tt
  else
    let invalidFiles := List.filter (λ f, negb (is_pdf_name f)) files in
    if 0 <? length invalidFiles then
      setError "Only PDF files are allowed"
    else
      setUploadStatus "Uploading files...";;
      setUploadProgress 0;;
      setIsUploading true;;
      setMessages (λ _, []);;
      setError "";;
      try_catch
        (c ← get;
         send (upload_request (token (auth c)) files))
        (λ _,
          setError "Upload failed. Please try again.";;
          setUploadStatus "";;
          setUploadProgress 0;;
          setIsUploading false).

Definition uploaded_message (n : nat) : string :=
  "✓ " +:+ pretty n +:+ " file" +:+ (if 1 <? n then "s" else "")
  +:+ " uploaded successfully".

(** The [load] listener of an upload request that was sent by the render
    in which the token was [t], followed by the settlement of the
    [fetchFiles] call it makes: the listener calls the [fetchFiles] of
    that render, whatever the token has become since. *)
Definition upload_onload (t : jsval) (resp : Response) (files_answer : Fetched)
  : Act unit :=
  if status resp =? 200 then
    response ← response_json resp;
    send (files_request t);;
    then_settle
      (match files response with
       | None => throw "TypeError"
       | Some fs =>
           setUploadStatus (uploaded_message (length fs));;
           setFileUploaded true;;
           setUploadProgress 0;;
           setIsUploading false
       end)
      (fetchFiles_settle files_answer)
  else
    try_catch
      (err ← response_json resp;
       setError (or_else (of_field (detail err)) "Upload failed"))
      (λ _, throw "Upload failed").

(** The [error] listener of the upload request. *)
Definition upload_onerror : Act unit :=
  setError "Upload failed. Please check your connection and try again.";;
  setUploadStatus "";;
  setUploadProgress 0;;
  setIsUploading false.

Definition error_reply : Message :=
  {| sender := bot_sender;
     text := Str "⚠️ Unable to process your question. Please try again.";
     msg_sources := None;
     isError := true |}.

Definition sendQuestion (answer : Fetched) : Act unit :=
  c ← get;
  let q := question (rag c) in
  if String.eqb (trim q) "" || loading (rag c) then mret tt
  else
    let userMessage :=
      {| sender := user_sender; text := Str q; msg_sources := None; isError := false |} in
    setMessages (λ prev, prev ++ [userMessage]);;
    setQuestion "";;
    setLoading true;;
    setError "";;
    try_catch
      (response ← fetch (ask_request (token (auth c)) q) answer;
       if negb (ok response) then throw "Failed to get response"
       else
         data ← response_json response;
         setMessages (λ prev, prev ++
           [{| sender := bot_sender;
               text := of_field (Http.answer data);
               msg_sources := Some (default [] (sources data));
               isError := false |}]))
      (λ err,
        if includes "401" err then
          setError "Session expired. Please login again.";;
          AuthContext.logout
        else
          setError "Failed to get response. Please ensure the backend is running.";;
          setMessages (λ prev, prev ++ [error_reply]));;
    setLoading false.

(** [confirmed] is what [window.confirm] returned. *)
Definition resetKnowledgeBase (confirmed : bool) (answer : Fetched) : Act unit :=
  if negb confirmed then mret tt
  else
    setError "";;
    try_catch
      (c ← get;
       response ← fetch (reset_request (token (auth c))) answer;
       if negb (ok response) then throw "Reset failed"
       else
         setMessages (λ _, []);;
         setUploadedFiles [];;
         setFileUploaded false;;
         setUploadStatus "Knowledge base cleared successfully")
      (λ _, setError "Failed to reset knowledge base. Please try again.").

End RAGInterface.

(** ** The server-side core *)

Module Core.

Definition UserId := string.

(** *** Chunk Store *)

Section ChunkStore.
Context {A : Type}.

(** Modelled from the spec: the chunk store's splitter is not among the
    sources.  A window of [chunk_size] characters slides over the text
    in steps of [chunk_size - overlap]; the window that reaches the end
    of the text is the last chunk.  [fuel] bounds the number of
    windows. *)
Fixpoint split_from (fuel : nat) (text : list A) (chunk_size overlap : nat)
  : list (list A) :=
  match fuel with
  | 0 => []
  | S fuel' =>
      match text with
      | [] => []
      | _ :: _ =>
          if length text <=? chunk_size then [text]
          else take chunk_size text
                 :: split_from fuel' (drop (chunk_size - overlap) text) chunk_size overlap
      end
  end.

(** Modelled from the spec: [split(document_text, chunk_size, overlap)]
    of the chunk store, missing from the sources.  One unit of fuel per
    character is enough when [overlap < chunk_size]. *)
Definition split (text : list A) (chunk_size overlap : nat) : list (list A) :=
  split_from (length text) text chunk_size overlap.

(** The non-overlapping spans of a sequence of chunks, concatenated:
    the first chunk whole, every later chunk without its first
    [overlap] characters. *)
Definition reassemble (overlap : nat) (chunks : list (list A)) : list A :=
  match chunks with
  | [] => []
  | c :: rest => c ++ concat (map (drop overlap) rest)
  end.

End ChunkStore.

(** [ceil(a / b)] on natural numbers. *)
Definition ceil_div (a b : nat) : nat := (a + b - 1) / b.

(** *** Session Authority *)

Inductive AuthError := TokenExpired | TokenInvalid.

(** Modelled from the spec: the session authority's token table, missing
    from the sources.  A token is bound to a user and an expiry
    instant. *)
Record SessionAuthority := {
  users : gset UserId;
  tokens : gmap string (UserId * nat)
}.

(** Modelled from the spec: [validate(token)] of the session authority,
    missing from the sources. *)
Definition validate (sa : SessionAuthority) (now : nat) (tok : string)
  : AuthError + UserId :=
  match tokens sa !! tok with
  | None => inl TokenInvalid
  | Some (u, expiry) =>
      if expiry <=? now then inl TokenExpired
      else if bool_decide (u ∈ users sa) then inr u
      else inl TokenInvalid
  end.

(** Modelled from the spec: reading the bearer token off the
    [Authorization] header, part of the missing request handling. *)
Definition bearer_token (authorization : option string) : option string :=
  match authorization with
  | Some v =>
      if String.prefix "Bearer " v
      then Some (String.substring 7 (String.length v - 7) v)
      else None
  | None => None
  end.

(** *** Vector Index and Index Manager *)

(** Modelled from the spec: the chunk and per-user vector index of the
    data model, missing from the sources.  Embedding vectors have integer
    coordinates here. *)
Record Chunk := {
  source : string;
  passage : string;
  position : nat;
  vector : list Z
}.

Record VectorIndex := {
  chunks : list Chunk;
  tracked : list string
}.

Definition empty_index : VectorIndex := {| chunks := []; tracked := [] |}.

(** Modelled from the spec: the vector distance of the similarity
    search, missing from the sources; squared Euclidean distance, a
    missing coordinate counting as zero. *)
Fixpoint distance (v w : list Z) : Z :=
  match v with
  | [] => foldr (λ y acc, y * y + acc) 0 w
  | x :: v' =>
      match w with
      | [] => x * x + distance v' []
      | y :: w' => (x - y) * (x - y) + distance v' w'
      end
  end%Z.

Fixpoint insert_by (d : Chunk → Z) (c : Chunk) (sorted : list Chunk) : list Chunk :=
  match sorted with
  | [] => [c]
  | x :: rest => if (d c <=? d x)%Z then c :: sorted else x :: insert_by d c rest
  end.

(** Modelled from the spec: ordering by distance, ties broken by
    earliest insertion. *)
Definition sort_by (d : Chunk → Z) (l : list Chunk) : list Chunk :=
  foldr (insert_by d) [] l.

(** Modelled from the spec: [open_or_create(user_id)] of the index
    manager, missing from the sources.  One vector index per user, keyed
    by the user id. *)
Definition open_or_create (u : UserId) (st : gmap UserId VectorIndex) : VectorIndex :=
  default empty_index (st !! u).

(** Modelled from the spec: [insert(user_id, filename, chunks)] of the
    index manager, missing from the sources; the chunks replace those the
    index held for the same filename. *)
Definition insert (u : UserId) (filename : string) (cs : list Chunk)
    (st : gmap UserId VectorIndex) : gmap UserId VectorIndex :=
  let idx := open_or_create u st in
  <[u := {| chunks :=
              List.filter (λ c, negb (String.eqb (source c) filename)) (chunks idx) ++ cs;
            tracked :=
              if bool_decide (filename ∈ tracked idx) then tracked idx
              else tracked idx ++ [filename] |}]> st.

(** Modelled from the spec: [search(user_id, query_vector, k)] of the
    index manager, missing from the sources. *)
Definition search (u : UserId) (query_vector : list Z) (k : nat)
    (st : gmap UserId VectorIndex) : list Chunk :=
  take k (sort_by (λ c, distance query_vector (vector c)) (chunks (open_or_create u st))).

(** Modelled from the spec: [clear(user_id)] of the index manager,
    missing from the sources. *)
Definition clear (u : UserId) (st : gmap UserId VectorIndex) : gmap UserId VectorIndex :=
  <[u := empty_index]> st.

(** Modelled from the spec: [list_files(user_id)] of the index manager,
    missing from the sources. *)
Definition list_files (u : UserId) (st : gmap UserId VectorIndex) : list string :=
  tracked (open_or_create u st).

(** *** Ingestion Pipeline and Query Engine *)

(** Modelled from the spec: the external collaborators (text
    extraction, embedding service, language model service) and the
    configuration of the core. *)
Record Services := {
  extract_text : string → option string;      (* [None]: extraction failed *)
  embed : string → option (list Z);           (* [None]: embedding service error *)
  generate : string → option string;          (* [None]: generation error *)
  chunk_size : nat;
  overlap : nat;
  top_k : nat
}.

Inductive IngestResult :=
| Indexed (chunk_count : nat)
| Rejected (reason : string).

Inductive QueryError := EmptyIndex | EmbeddingServiceError | GenerationError.

Record AnswerResult := {
  answer_text : string;
  answer_sources : list string
}.

Section Pipeline.
Variable svc : Services.

(** Modelled from the spec: the supported document type, by file
    extension. *)
Definition supported (file_name : string) : bool :=
  Js.endsWith ".pdf" (Js.toLowerCase file_name).

(** Modelled from the spec: the embeddings of all chunks of a file, or
    none (all-or-nothing per file). *)
Fixpoint embed_all (file_name : string) (pos : nat) (pieces : list string)
  : option (list Chunk) :=
  match pieces with
  | [] => Some []
  | p :: rest =>
      match embed svc p, embed_all file_name (S pos) rest with
      | Some v, Some cs =>
          Some ({| source := file_name; passage := p; position := pos; vector := v |} :: cs)
      | _, _ => None
      end
  end.

(** Modelled from the spec: [ingest(user_id, file_name, file_bytes)] of
    the ingestion pipeline, missing from the sources. *)
Definition ingest (u : UserId) (file_name file_bytes : string)
    (st : gmap UserId VectorIndex) : IngestResult * gmap UserId VectorIndex :=
  if negb (supported file_name) then (Rejected "UnsupportedFileType", st)
  else
    match extract_text svc file_bytes with
    | None | Some "" => (Rejected "ExtractionFailed", st)
    | Some text =>
        let pieces :=
          map string_of_list_ascii
            (split (list_ascii_of_string text) (chunk_size svc) (overlap svc)) in
        match embed_all file_name 0 pieces with
        | None => (Rejected "EmbeddingServiceError", st)
        | Some cs => (Indexed (length cs), insert u file_name cs st)
        end
    end.

(** Modelled from the spec: batch ingestion, missing from the sources;
    every file on its own, in order. *)
Fixpoint ingest_batch (u : UserId) (files : list Http.File)
    (st : gmap UserId VectorIndex) : list IngestResult * gmap UserId VectorIndex :=
  match files with
  | [] => ([], st)
  | f :: rest =>
      let '(r, st1) := ingest u (Http.name f) (Http.content f) st in
      let '(rs, st2) := ingest_batch u rest st1 in
      (r :: rs, st2)
  end.

Definition success_count (rs : list IngestResult) : nat :=
  length (List.filter (λ r, match r with Indexed _ => true | Rejected _ => false end) rs).

Definition build_prompt (hits : list Chunk) (question : string) : string :=
  foldr (λ c acc, "[" +:+ source c +:+ "] " +:+ passage c +:+ " " +:+ acc)
        ("Question: " +:+ question) hits.

(** Modelled from the spec: [answer(user_id, question)] of the query
    engine, missing from the sources. *)
Definition answer (u : UserId) (question : string) (st : gmap UserId VectorIndex)
  : QueryError + AnswerResult :=
  if length (chunks (open_or_create u st)) =? 0 then inl EmptyIndex
  else
    match embed svc question with
    | None => inl EmbeddingServiceError
    | Some qv =>
        let hits := search u qv (top_k svc) st in
        match generate svc (build_prompt hits question) with
        | None => inl GenerationError
        | Some reply =>
            inr {| answer_text := reply;
                   answer_sources := remove_dups (map source hits) |}
        end
    end.

End Pipeline.

Definition supported_file (f : Http.File) : bool := supported (Http.name f).

(** Of the outcomes of a batch, those of its supported files. *)
Definition supported_outcomes (files : list Http.File) (rs : list IngestResult)
  : list IngestResult :=
  map snd (List.filter (λ p, supported_file (fst p)) (zip files rs)).

End Core.

(** ** The external interface of the core *)

Module Api.
Import Core.

(** Modelled from the spec: the failure taxonomy and its status
    categories (unauthorized, bad input, upstream unavailable, not found
    for the empty state). *)
Inductive Failure :=
| Unauthorized (e : AuthError)
| BadInput (reason : string)
| UpstreamUnavailable (e : QueryError)
| EmptyState.

Definition status_of (f : Failure) : nat :=
  match f with
  | Unauthorized _ => 401
  | BadInput _ => 400
  | UpstreamUnavailable _ => 503
  | EmptyState => 404
  end.

(** Modelled from the spec: the four data-bearing operations of the
    external interface, a request with its time and [Authorization]
    header, and the replies. *)
Inductive Call :=
| Upload (files : list Http.File)
| Ask (question : string)
| Files
| Reset.

Record Request := {
  time : nat;
  authorization : option string;
  call : Call
}.

Inductive Reply :=
| Failed (f : Failure)
| Uploaded (outcomes : list IngestResult) (succeeded : nat) (files : list string)
| Answered (a : AnswerResult)
| FileList (files : list string)
| ResetDone.

Section Endpoints.
Variable svc : Services.
Variable sa : SessionAuthority.

(** Modelled from the spec: the bearer-token gate in front of every
    data-bearing endpoint, missing from the sources. *)
Definition authorize (now : nat) (authorization : option string)
  : AuthError + UserId :=
  match bearer_token authorization with
  | None => inl TokenInvalid
  | Some tok => validate sa now tok
  end.

(** Modelled from the spec: the upload, ask, files and reset
    operations for an authenticated user, missing from the sources. *)
Definition perform (u : UserId) (c : Call) (st : gmap UserId VectorIndex)
  : Reply * gmap UserId VectorIndex :=
  match c with
  | Upload [] => (Failed (BadInput "EmptyBatch"), st)
  | Upload files =>
      let '(rs, st') := ingest_batch svc u files st in
      (Uploaded rs (success_count rs) (list_files u st'), st')
  | Ask question =>
      if String.eqb question "" then (Failed (BadInput "EmptyQuestion"), st)
      else
        match answer svc u question st with
        | inl EmptyIndex => (Failed EmptyState, st)
        | inl e => (Failed (UpstreamUnavailable e), st)
        | inr a => (Answered a, st)
        end
  | Files => (FileList (list_files u st), st)
  | Reset => (ResetDone, clear u st)
  end.

(** Modelled from the spec: serving one request behind the token gate,
    missing from the sources. *)
Definition handle (rq : Request) (st : gmap UserId VectorIndex)
  : Reply * gmap UserId VectorIndex :=
  match authorize (time rq) (authorization rq) with
  | inl e => (Failed (Unauthorized e), st)
  | inr u => perform u (call rq) st
  end.

(** The user a request acts for, if its token validates. *)
Definition caller (rq : Request) : option UserId :=
  match authorize (time rq) (authorization rq) with
  | inl _ => None
  | inr u => Some u
  end.

(** Modelled from the spec: a sequence of requests, served one after
    the other (index mutations are serialized). *)
Fixpoint run (rqs : list Request) (st : gmap UserId VectorIndex)
  : list (Request * Reply) * gmap UserId VectorIndex :=
  match rqs with
  | [] => ([], st)
  | rq :: rest =>
      let '(r, st1) := handle rq st in
      let '(rs, st2) := run rest st1 in
      ((rq, r) :: rs, st2)
  end.

(** What a user gets to see of a run: the replies to the requests made
    with tokens that validate to that user. *)
Definition replies_to (u : UserId) (log : list (Request * Reply)) : list Reply :=
  map snd (List.filter (λ p, bool_decide (caller (fst p) = Some u)) log).

(** A sequence of requests without those made for a given user. *)
Definition without (u : UserId) (rqs : list Request) : list Request :=
  List.filter (λ rq, negb (bool_decide (caller rq = Some u))) rqs.

End Endpoints.

(** The call a client request amounts to, by method and path. *)
Definition decode (r : Http.Request) : option Call :=
  match Http.body r with
  | Http.Multipart parts =>
      if String.eqb (Http.method r) "POST" && String.eqb (Http.url r) "/api/upload"
      then Some (Upload (map snd parts)) else None
  | Http.JsonBody [("question", q)] =>
      if String.eqb (Http.method r) "POST" && String.eqb (Http.url r) "/api/ask"
      then Some (Ask q) else None
  | Http.NoBody =>
      if String.eqb (Http.method r) "GET" && String.eqb (Http.url r) "/api/files"
      then Some Files
      else if String.eqb (Http.method r) "POST" && String.eqb (Http.url r) "/api/reset"
      then Some Reset else None
  | _ => None
  end.

(** A client request as the core receives it at a given time. *)
Definition receive (now : nat) (r : Http.Request) : option Request :=
  match decode r with
  | Some c =>
      Some {| time := now;
              authorization := Http.header "Authorization" (Http.headers r);
              call := c |}
  | None => None
  end.

End Api.

(** ** Events of the document screen, and what the stated properties say *)

Module Screen.
Import Js Http Eff Client RAGInterface.

(** What can happen on the document screen: the handlers of
    [RAGInterface] with what the environment hands them.  A call of
    [fetchFiles] and the load of an upload come with the token of the
    render whose closure runs. *)
Inductive Event :=
| Mounted (files_answer : Fetched)
| FilesRefreshed (t : jsval) (files_answer : Fetched)
| FilesChosen (files : list File)
| UploadLoaded (t : jsval) (resp : Response) (files_answer : Fetched)
| UploadFailed
| QuestionSent (answer : Fetched)
| ResetClicked (confirmed : bool) (answer : Fetched).

Definition react (e : Event) : Act unit :=
  match e with
  | Mounted a => initial_fetchFiles a
  | FilesRefreshed t a => fetchFiles t a
  | FilesChosen files => uploadFile files
  | UploadLoaded t resp a => upload_onload t resp a
  | UploadFailed => upload_onerror
  | QuestionSent a => sendQuestion a
  | ResetClicked confirmed a => resetKnowledgeBase confirmed a
  end.

(** The requests an event makes the client issue. *)
Definition issued (e : Event) (c : State) : list Request :=
  drop (length (sent c)) (sent (snd (react e c))).

Definition data_endpoints : list string :=
  ["/api/upload"; "/api/ask"; "/api/files"; "/api/reset"].

(** The two items a login writes fit into the storage. *)
Definition has_room (t username : string) (ls : Storage) : Prop :=
  storage_size (<["token" := t]> (items ls)) ≤ quota ls
  ∧ storage_size (<["user_data" := JSON.stringify [("username", username)]]>
                    (<["token" := t]> (items ls))) ≤ quota ls.

(** The state of a client logged in with token [t] as [username],
    coming from state [c]. *)
Definition logged_in (t username : string) (c : State) : State :=
  with_auth (λ a, {| user := Some {| username := username |};
                     token := Str t; auth_loading := auth_loading a |})
    (with_storage (λ ls,
       {| items := <["user_data" := JSON.stringify [("username", username)]]>
                     (<["token" := t]> (items ls));
          quota := quota ls |}) c).

(** *** The properties as stated, for those the client does not have *)


(** Modelled from the spec: how a failure of the core reaches the
    client, by its status category and a readable condition; the
    rendering of replies is missing from the sources. *)
Definition condition (f : Api.Failure) : string :=
  match f with
  | Api.Unauthorized Core.TokenExpired => "TokenExpired"
  | Api.Unauthorized Core.TokenInvalid => "TokenInvalid"
  | Api.BadInput reason => reason
  | Api.UpstreamUnavailable Core.GenerationError => "GenerationError"
  | Api.UpstreamUnavailable _ => "EmbeddingServiceError"
  | Api.EmptyState => "EmptyIndex"
  end.

Definition failure_response (f : Api.Failure) : Response :=
  {| status := Api.status_of f;
     json := inr {| detail := Some (condition f); access_token := None;
                    files := None; answer := None; sources := None |} |}.

(** For a user whose index holds no chunk the answer operation fails with
    the empty-index condition, and the caller, the client that sent the
    question, can tell that failure from a failed generation and from a
    network failure: it ends in a different state. *)
Definition empty_index_distinguishable : Prop :=
  ∀ (svc : Core.Services) (u : Core.UserId) (asked : string)
    (st : gmap Core.UserId Core.VectorIndex) (c : State) (network_message : string),
    Core.chunks (Core.open_or_create u st) = [] →
    Js.trim (question (rag c)) ≠ "" → loading (rag c) = false →
    let empty := snd (sendQuestion (Resolves (failure_response Api.EmptyState)) c) in
    Core.answer svc u asked st = inl Core.EmptyIndex
    ∧ empty ≠ snd (sendQuestion
                     (Resolves (failure_response
                                  (Api.UpstreamUnavailable Core.GenerationError))) c)
    ∧ empty ≠ snd (sendQuestion (Rejects network_message) c).

(** An empty batch is reported as rejected: the upload does not pass
    silently. *)
Definition empty_batch_reported : Prop :=
  ∀ c : State,
    error (rag (snd (uploadFile [] c))) ≠ error (rag c)
    ∨ issued (FilesChosen []) c ≠ [].

(** A [token] parameter in the callback URL always logs the client in
    with that token and sends it to the home route. *)
Definition token_parameter_logs_in : Prop :=
  ∀ (params : list (string * string)) (t : string) (c : State),
    AuthCallback.searchParams_get "token" params = Str t →
    has_room t (or_else (AuthCallback.searchParams_get "username" params) "User")
      (localStorage c) →
    let c' := snd (AuthCallback.AuthCallback params c) in
    token (auth c') = Str t ∧ navigated c' = navigated c ++ ["/"].

(** *** States the handlers lead to *)

(** A request goes to one of the data-bearing endpoints and its
    [Authorization] header is [Bearer], a space, and the token [t] as
    text. *)
Definition bears (t : jsval) (r : Request) : Prop :=
  header "Authorization" (headers r) = Some ("Bearer " +:+ to_String t)
  ∧ url r ∈ data_endpoints.

(** The token of the closure that runs for an event: the token the
    client holds, except for a call of [fetchFiles] and the load of an
    upload, which run in the render they were made in. *)
Definition closure_token (e : Event) (c : State) : jsval :=
  match e with
  | FilesRefreshed t _ => t
  | UploadLoaded t _ _ => t
  | _ => token (auth c)
  end.


(** After a question that got no usable answer: the question was asked
    and the one generic failure is shown. *)
Definition generic_failure (c : State) : State :=
  with_rag (λ r,
    {| messages :=
         (messages r ++ [{| sender := user_sender; text := Str (question r);
                            msg_sources := None; isError := false |}])
         ++ [error_reply];
       question := ""; loading := false;
       fileUploaded := fileUploaded r; uploadStatus := uploadStatus r;
       uploadedFiles := uploadedFiles r; uploadProgress := uploadProgress r;
       error := "Failed to get response. Please ensure the backend is running.";
       isUploading := isUploading r |})
    (with_sent (λ l, l ++ [ask_request (token (auth c)) (question (rag c))]) c).

(** The file list after the files endpoint has answered: its list when
    the answer is usable, the list held before otherwise. *)
Definition listed (files_answer : Fetched) (old : list string) : list string :=
  match files_answer with
  | Rejects _ => old
  | Resolves r =>
      if ok r then
        match json r with
        | inr d => default [] (files d)
        | inl _ => old
        end
      else old
  end.

(** After a reset the server accepted. *)
Definition cleared (c : State) : State :=
  with_rag (λ r,
    {| messages := []; question := question r; loading := loading r;
       fileUploaded := false; uploadStatus := "Knowledge base cleared successfully";
       uploadedFiles := []; uploadProgress := uploadProgress r;
       error := ""; isUploading := isUploading r |})
    (with_sent (λ l, l ++ [reset_request (token (auth c))]) c).

End Screen.

(** ** Concrete values for the examples *)

Module Demo.
Import Js Http Client.

Definition room : Storage := {| items := ∅; quota := 5000 |}.

Definition fresh : State := initial room.

(** A client logged in with token [ta] that has typed a question. *)
Definition asking : State :=
  with_rag (λ r,
    {| messages := messages r; question := "What is the refund window?";
       loading := loading r; fileUploaded := true; uploadStatus := uploadStatus r;
       uploadedFiles := ["policy.pdf"]; uploadProgress := uploadProgress r;
       error := error r; isUploading := isUploading r |})
    (Screen.logged_in "ta" "alice" fresh).

(** The same client with a question of a no-break space and a space. *)
Definition blank : State :=
  with_rag (λ r,
    {| messages := messages r; question := bytes [194; 160; 32];
       loading := loading r; fileUploaded := fileUploaded r;
       uploadStatus := uploadStatus r; uploadedFiles := uploadedFiles r;
       uploadProgress := uploadProgress r; error := error r;
       isUploading := isUploading r |})
    asking.

(** [JSON.parse] on the texts the examples store: the user data of
    alice; any other text is one the examples never store. *)
Definition parse (text : string) : string + option UserData :=
  if String.eqb text (JSON.stringify [("username", "alice")])
  then inr (Some {| username := "alice" |})
  else inl "Unexpected end of JSON input".

Definition notes_txt : File := {| name := "notes.txt"; content := "plain text" |}.
Definition policy_pdf : File := {| name := "policy.pdf"; content := "refunds within thirty days" |}.

Definition json_with (fs : option (list string)) (tok : option string) : Json :=
  {| detail := None; access_token := tok; files := fs; answer := None; sources := None |}.

Definition ok_response (j : Json) : Response := {| status := 200; json := inr j |}.

Definition failure (code : nat) (condition : string) : Response :=
  {| status := code;
     json := inr {| detail := Some condition; access_token := None; files := None;
                    answer := None; sources := None |} |}.

Definition services : Core.Services :=
  {| Core.extract_text := λ bytes, Some bytes;
     Core.embed := λ s, Some [Z.of_nat (String.length s)];
     Core.generate := λ prompt, Some "thirty days";
     Core.chunk_size := 8;
     Core.overlap := 2;
     Core.top_k := 2 |}.

Definition authority : Core.SessionAuthority :=
  {| Core.users := {["alice"; "bob"]};
     Core.tokens := <["ta" := ("alice", 100)]> (<["tb" := ("bob", 100)]> ∅) |}.

Definition by_alice (c : Api.Call) : Api.Request :=
  {| Api.time := 10; Api.authorization := Some "Bearer ta"; Api.call := c |}.

Definition by_bob (c : Api.Call) : Api.Request :=
  {| Api.time := 10; Api.authorization := Some "Bearer tb"; Api.call := c |}.

Definition session : list Api.Request :=
  [by_alice (Api.Upload [policy_pdf]); by_bob (Api.Ask "refund?");
   by_bob (Api.Upload [{| name := "b.pdf"; content := "bob's own text" |}]);
   by_alice (Api.Ask "refund?"); by_bob (Api.Ask "refund?"); by_bob Api.Files].

(** The scenario of the specification: a mixed upload, a question, a
    reset, then the same again, an expired token and a missing one. *)
Definition scenario : list Api.Request :=
  [by_alice (Api.Upload [notes_txt; policy_pdf]); by_alice Api.Files;
   by_alice (Api.Ask "What is the refund window?");
   by_alice Api.Reset; by_alice Api.Files;
   by_alice (Api.Ask "What is the refund window?");
   {| Api.time := 100; Api.authorization := Some "Bearer ta"; Api.call := Api.Files |};
   {| Api.time := 10; Api.authorization := None; Api.call := Api.Files |}].

End Demo.

(** ** What the document screen enables *)

Module View.
Import Js Client.

(** [disabled] of the reset button and of the file input:
    [loading || isUploading]. *)
Definition reset_disabled (c : State) : bool :=
  loading (rag c) || isUploading (rag c).

Definition file_input_disabled (c : State) : bool :=
  loading (rag c) || isUploading (rag c).

(** [disabled] of the question box:
    [!fileUploaded || loading || isUploading]. *)
Definition question_disabled (c : State) : bool :=
  negb (fileUploaded (rag c)) || loading (rag c) || isUploading (rag c).

(** [disabled] of the send button:
    [!fileUploaded || loading || !question.trim() || isUploading]. *)
Definition send_disabled (c : State) : bool :=
  negb (fileUploaded (rag c)) || loading (rag c)
  || String.eqb (trim (question (rag c))) "" || isUploading (rag c).

(** The message [sendQuestion] adds for the question as typed. *)
Definition asked (c : State) : Message :=
  {| sender := user_sender; text := Str (question (rag c));
     msg_sources := None; isError := false |}.

End View.

(** ** Register *)

Module Register.
Import Js Http Eff Client.

(** State of the [Register] form. *)
Record Form := {
  username : string;
  email : string;
  password : string;
  error : string
}.

Definition setError (e : string) (f : Form) : Form :=
  {| username := username f; email := email f; password := password f; error := e |}.

(** [handleSubmit]: the form state it leaves, the client state being
    changed on the way. *)
Definition handleSubmit (f : Form) (answer : Fetched) : Act Form :=
  let f0 := setError "" f in
  try_catch
    (AuthContext.register (username f) (email f) (password f) answer;;
     AuthCallback.navigate "/login";;
     mret f0)
    (λ message, mret (setError message f0)).

End Register.

(** ** AuthCallback, the earlier version kept beside the README *)

Module Earlier.
Import Js Http Eff Client.

(** The effect of the earlier callback component: both parameters are
    required, and without them the client is sent back to the login
    route. *)
Definition AuthCallback (searchParams : list (string * string)) : Act unit :=
  let token := AuthCallback.searchParams_get "token" searchParams in
  let username := AuthCallback.searchParams_get "username" searchParams in
  if truthy token && truthy username then
    AuthContext.loginWithToken token (to_String username);;
    AuthCallback.navigate "/"
  else
    AuthCallback.navigate "/login".

End Earlier.

(** * Properties *)

(** ** Chunk store *)

Section ChunkStoreFacts.
Import Core.
Context {A : Type}.
Implicit Types (text : list A) (chunk_size overlap : nat).

Lemma split_from_fuel fuel1 fuel2 text chunk_size overlap :
  overlap < chunk_size →
  length text ≤ fuel1 → length text ≤ fuel2 →
  split_from fuel1 text chunk_size overlap = split_from fuel2 text chunk_size overlap.
Proof.
  intros Hov. revert fuel2 text.
  induction fuel1 as [|fuel1 IH]; intros fuel2 text H1 H2.
  - destruct text; [|simpl in H1; lia]. by destruct fuel2.
  - destruct fuel2 as [|fuel2]; [destruct text; [done | simpl in H2; lia]|].
    destruct text as [|a text]; [done|].
    cbn [split_from]. destruct (length (a :: text) <=? chunk_size) eqn:E; [done|].
    apply Nat.leb_gt in E. f_equal.
    apply IH; rewrite length_drop; simpl in *; lia.
Qed.

Lemma split_nil chunk_size overlap : split (@nil A) chunk_size overlap = [].
Proof. reflexivity. Qed.

Lemma split_short text chunk_size overlap :
  text ≠ [] → length text ≤ chunk_size → split text chunk_size overlap = [text].
Proof.
  intros Hne Hle. unfold split. destruct text as [|a text]; [done|].
  cbn [length split_from] in *. by apply Nat.leb_le in Hle as ->.
Qed.

Lemma split_long text chunk_size overlap :
  overlap < chunk_size → chunk_size < length text →
  split text chunk_size overlap
  = take chunk_size text :: split (drop (chunk_size - overlap) text) chunk_size overlap.
Proof.
  intros Hov Hlt. unfold split. destruct text as [|a text]; [simpl in Hlt; lia|].
  cbn [length split_from]. apply Nat.leb_gt in Hlt as Hb.
  cbn [length] in Hb. rewrite Hb. f_equal.
  apply split_from_fuel; [done| |done].
  rewrite length_drop. simpl in *. lia.
Qed.

Lemma split_ind (P : list A → list (list A) → Prop) chunk_size overlap :
  overlap < chunk_size →
  P [] [] →
  (∀ text, text ≠ [] → length text ≤ chunk_size → P text [text]) →
  (∀ text, chunk_size < length text →
     let rest := drop (chunk_size - overlap) text in
     overlap < length rest →
     P rest (split rest chunk_size overlap) →
     P text (take chunk_size text :: split rest chunk_size overlap)) →
  ∀ text, P text (split text chunk_size overlap).
Proof.
  intros Hov Hnil Hshort Hlong text.
  remember (length text) as n eqn:Hn. revert text Hn.
  induction (lt_wf n) as [n _ IH]; intros text ->.
  destruct (decide (text = [])) as [->|Hne]; [done|].
  destruct (decide (length text ≤ chunk_size)) as [Hle|Hgt].
  - rewrite split_short by done. by apply Hshort.
  - rewrite split_long by lia.
    assert (length (drop (chunk_size - overlap) text) = length text - (chunk_size - overlap))
      as Hlen by apply length_drop.
    apply Hlong; [lia | lia |].
    eapply IH; [|reflexivity]. lia.
Qed.

Lemma split_head text chunk_size overlap :
  overlap < chunk_size → text ≠ [] →
  ∃ rest, split text chunk_size overlap = take chunk_size text :: rest.
Proof.
  intros Hov Hne. destruct (decide (length text ≤ chunk_size)) as [Hle|Hgt].
  - exists []. rewrite split_short by done. by rewrite take_ge.
  - eexists. apply split_long; lia.
Qed.

Lemma split_chunk_length text chunk_size overlap :
  overlap < chunk_size →
  Forall (λ c, length c ≤ chunk_size) (split text chunk_size overlap).
Proof.
  intros Hov. apply (split_ind (λ _ cs, Forall (λ c, length c ≤ chunk_size) cs)
                       chunk_size overlap Hov); clear text.
  - constructor.
  - intros text _ Hle. by repeat constructor.
  - intros text _ rest _ IH. constructor; [|done]. rewrite length_take. lia.
Qed.

Lemma ceil_div_one a b : 0 < a → a ≤ b → ceil_div a b = 1.
Proof.
  intros Ha Hb. unfold ceil_div.
  symmetry. apply (Nat.div_unique _ _ _ (a - 1)); lia.
Qed.

Lemma ceil_div_step a b : 0 < b → 0 < a → ceil_div (a + b) b = S (ceil_div a b).
Proof.
  intros Hb Ha. unfold ceil_div.
  replace (a + b + b - 1) with ((a + b - 1) + 1 * b) by lia.
  rewrite Nat.div_add by lia. lia.
Qed.

Lemma split_count text chunk_size overlap :
  overlap < chunk_size → overlap < length text →
  length (split text chunk_size overlap)
  = ceil_div (length text - overlap) (chunk_size - overlap).
Proof.
  intros Hov.
  apply (split_ind (λ t cs, overlap < length t →
           length cs = ceil_div (length t - overlap) (chunk_size - overlap))
           chunk_size overlap Hov); clear text.
  - simpl. lia.
  - intros text _ Hle Hlt. simpl. symmetry. apply ceil_div_one; lia.
  - intros text Hgt rest Hrest IH _. cbn [length]. rewrite IH by done.
    subst rest. rewrite length_drop in *.
    rewrite <- ceil_div_step by lia. f_equal. lia.
Qed.

Lemma concat_drop_split text chunk_size overlap :
  overlap < chunk_size →
  concat (map (drop overlap) (split text chunk_size overlap)) = drop overlap text.
Proof.
  intros Hov.
  apply (split_ind (λ t cs, concat (map (drop overlap) cs) = drop overlap t)
           chunk_size overlap Hov); clear text.
  - by rewrite drop_nil.
  - intros text _ _. simpl. by rewrite app_nil_r.
  - intros text Hgt rest _ IH. cbn [map concat]. rewrite IH. subst rest.
    rewrite drop_drop.
    replace (chunk_size - overlap + overlap) with chunk_size by lia.
    apply drop_take_drop. lia.
Qed.

Lemma split_lossless text chunk_size overlap :
  overlap < chunk_size →
  reassemble overlap (split text chunk_size overlap) = text.
Proof.
  intros Hov. destruct (decide (length text ≤ chunk_size)) as [Hle|Hgt].
  - destruct text as [|a text]; [done|].
    rewrite split_short by done. simpl. by rewrite app_nil_r.
  - rewrite split_long by lia. cbn [reassemble].
    rewrite concat_drop_split by done. rewrite drop_drop.
    replace (chunk_size - overlap + overlap) with chunk_size by lia.
    apply take_drop.
Qed.

Lemma split_covers text chunk_size overlap :
  overlap < chunk_size →
  ∀ i x, text !! i = Some x →
    ∃ j c, split text chunk_size overlap !! j = Some c
           ∧ j * (chunk_size - overlap) ≤ i
           ∧ c !! (i - j * (chunk_size - overlap)) = Some x.
Proof.
  intros Hov.
  apply (split_ind (λ t cs, ∀ i x, t !! i = Some x →
           ∃ j c, cs !! j = Some c ∧ j * (chunk_size - overlap) ≤ i
                  ∧ c !! (i - j * (chunk_size - overlap)) = Some x)
           chunk_size overlap Hov); clear text.
  - intros i x H. by rewrite lookup_nil in H.
  - intros text _ _ i x H. exists 0, text. simpl. rewrite Nat.sub_0_r.
    split_and!; [done | lia | done].
  - intros text Hgt rest _ IH i x H.
    destruct (decide (i < chunk_size)) as [Hi|Hi].
    + exists 0, (take chunk_size text). simpl. rewrite Nat.sub_0_r.
      split_and!; [done | lia |]. by rewrite lookup_take_lt.
    + destruct (IH (i - (chunk_size - overlap)) x) as (j & c & Hj & Hle & Hc).
      { subst rest. rewrite lookup_drop. rewrite <- H. f_equal. lia. }
      exists (S j), c. split_and!; [done | simpl; lia |].
      rewrite <- Hc. f_equal. simpl. lia.
Qed.

Lemma split_overlap text chunk_size overlap :
  overlap < chunk_size →
  ∀ j c d,
    split text chunk_size overlap !! j = Some c →
    split text chunk_size overlap !! S j = Some d →
    length c = chunk_size
    ∧ drop (chunk_size - overlap) c = take overlap d
    ∧ length (take overlap d) = overlap.
Proof.
  intros Hov.
  apply (split_ind (λ t cs, ∀ j c d, cs !! j = Some c → cs !! S j = Some d →
           length c = chunk_size
           ∧ drop (chunk_size - overlap) c = take overlap d
           ∧ length (take overlap d) = overlap)
           chunk_size overlap Hov); clear text.
  - intros j c d H. by rewrite lookup_nil in H.
  - intros text _ _ j c d _ H. simpl in H. by rewrite lookup_nil in H.
  - intros text Hgt rest Hrest IH [|j] c d Hc Hd.
    + simpl in Hc, Hd. injection Hc as <-.
      destruct (split_head rest chunk_size overlap Hov) as [tl Htl].
      { intros E. rewrite E in Hrest. simpl in Hrest. lia. }
      rewrite Htl in Hd. simpl in Hd. injection Hd as <-.
      split_and!.
      * rewrite length_take. lia.
      * subst rest. rewrite take_take, Nat.min_l by lia.
        rewrite take_drop_commute. do 2 f_equal. lia.
      * rewrite take_take, Nat.min_l by lia. rewrite length_take. lia.
    + simpl in Hc, Hd. by eapply IH.
Qed.

(** C3. For every text and every [overlap < chunk_size], [split] is a
    function of its arguments (equal inputs give equal chunks); every
    character of the text lies in some chunk, at the offset the window
    of that chunk gives it; no chunk is longer than [chunk_size]; of two
    consecutive chunks the first is a full window whose last [overlap]
    characters are the first [overlap] characters of the second; a text
    longer than [overlap] gives [ceil((len - overlap) / (chunk_size -
    overlap))] chunks; the non-overlapping spans of the chunks
    concatenate to the text; and the empty text gives no chunk. *)
Theorem split_guarantees text chunk_size overlap :
  overlap < chunk_size →
  let chunks := split text chunk_size overlap in
  (∀ text', text' = text → split text' chunk_size overlap = chunks)
  ∧ (∀ i x, text !! i = Some x →
       ∃ j c, chunks !! j = Some c
              ∧ j * (chunk_size - overlap) ≤ i
              ∧ c !! (i - j * (chunk_size - overlap)) = Some x)
  ∧ Forall (λ c, length c ≤ chunk_size) chunks
  ∧ (∀ j c d, chunks !! j = Some c → chunks !! S j = Some d →
       length c = chunk_size
       ∧ drop (chunk_size - overlap) c = take overlap d
       ∧ length (take overlap d) = overlap)
  ∧ (overlap < length text →
       length chunks = ceil_div (length text - overlap) (chunk_size - overlap))
  ∧ reassemble overlap chunks = text
  ∧ split (@nil A) chunk_size overlap = [].
Proof.
  intros Hov chunks. subst chunks. split_and!.
  - by intros text' ->.
  - by apply split_covers.
  - by apply split_chunk_length.
  - by apply split_overlap.
  - by apply split_count.
  - by apply split_lossless.
  - apply split_nil.
Qed.

End ChunkStoreFacts.

(** [ceil_div a b] is the least [n] with [a ≤ n * b]. *)
Lemma ceil_div_least a b :
  0 < b → a ≤ Core.ceil_div a b * b ∧ ∀ n, a ≤ n * b → Core.ceil_div a b < S n.
Proof.
  intros Hb. unfold Core.ceil_div. split.
  - pose proof (Nat.div_mod (a + b - 1) b ltac:(lia)) as E.
    pose proof (Nat.mod_upper_bound (a + b - 1) b ltac:(lia)) as U.
    set (q := (a + b - 1) `div` b) in *. set (r := (a + b - 1) `mod` b) in *. lia.
  - intros n Hn. apply Nat.Div0.div_lt_upper_bound. nia.
Qed.

Lemma split_guarantees_witness :
  1 < 4 ∧
  let text := list_ascii_of_string "retrieval" in
  let chunks := Core.split text 4 1 in
  (∀ text', text' = text → Core.split text' 4 1 = chunks)
  ∧ (∀ i x, text !! i = Some x →
       ∃ j c, chunks !! j = Some c ∧ j * (4 - 1) ≤ i ∧ c !! (i - j * (4 - 1)) = Some x)
  ∧ Forall (λ c, length c ≤ 4) chunks
  ∧ (∀ j c d, chunks !! j = Some c → chunks !! S j = Some d →
       length c = 4 ∧ drop (4 - 1) c = take 1 d ∧ length (take 1 d) = 1)
  ∧ (1 < length text → length chunks = Core.ceil_div (length text - 1) (4 - 1))
  ∧ Core.reassemble 1 chunks = text
  ∧ Core.split (@nil ascii) 4 1 = [].
Proof.
  split; [lia|]. apply (split_guarantees (list_ascii_of_string "retrieval") 4 1). lia.
Defined.

Example split_retrieval :
  map string_of_list_ascii (Core.split (list_ascii_of_string "retrieval") 4 1)
  = ["retr"; "riev"; "val"].
Proof. reflexivity. Qed.


(** ** The client *)

Section ClientFacts.
Import Js Http Eff Client RAGInterface Screen AuthContext AuthCallback.

Ltac eff :=
  unfold mbind, M_bind, bind, mret, M_ret, ret, get, modify, throw, try_catch, when.

Lemma uploadFile_empty c : uploadFile [] c = (Returned tt, c).
Proof. reflexivity. Qed.


Lemma invalid_files_empty files :
Forall (λ f, is_pdf_name f = true) files →
List.filter (λ f, negb (is_pdf_name f)) files = [].
Proof.
induction 1 as [|f files Hf _ IH]; [done|]. simpl. by rewrite Hf.
Qed.


Lemma uploadFile_pdfs files c :
files ≠ [] → Forall (λ f, is_pdf_name f = true) files →
∃ c', uploadFile files c = (Returned tt, c')
      ∧ sent c' = sent c ++ [upload_request (token (auth c)) files]
      ∧ error (rag c') = "" ∧ isUploading (rag c') = true.
Proof.
intros Hne Hall. unfold uploadFile.
destruct files as [|f files]; [done|].
cbn [length Nat.eqb]. rewrite invalid_files_empty by done.
eexists. split; [reflexivity|]. done.
Qed.


Lemma setItem_spec k v c :
setItem k v c =
if storage_size (<[k := v]> (items (localStorage c))) <=? quota (localStorage c)
then (Returned tt,
      with_storage (λ ls, {| items := <[k := v]> (items (localStorage c)); quota := quota ls |}) c)
else (Threw "QuotaExceededError", c).
Proof.
unfold setItem. eff. by destruct (_ <=? _).
Qed.

Lemma loginWithToken_spec t username c :
loginWithToken (Str t) username c =
if storage_size (<["token" := t]> (items (localStorage c))) <=? quota (localStorage c)
then
  if storage_size (<["user_data" := JSON.stringify [("username", username)]]>
                     (<["token" := t]> (items (localStorage c)))) <=? quota (localStorage c)
  then (Returned tt, logged_in t username c)
  else (Threw "QuotaExceededError",
        with_storage (λ ls, {| items := <["token" := t]> (items ls); quota := quota ls |}) c)
else (Threw "QuotaExceededError", c).
Proof.
unfold loginWithToken, setToken, setUser. eff. rewrite setItem_spec. cbn [to_String].
destruct (_ <=? _); [|done].
rewrite setItem_spec. cbn.
by destruct (_ <=? _).
Qed.

Lemma loginWithToken_room t username c :
has_room t username (localStorage c) →
loginWithToken (Str t) username c = (Returned tt, logged_in t username c).
Proof.
intros [H1 H2]. rewrite loginWithToken_spec.
apply Nat.leb_le in H1 as ->. by apply Nat.leb_le in H2 as ->.
Qed.

Lemma loginWithToken_completed t username c c' :
loginWithToken (Str t) username c = (Returned tt, c') →
c' = logged_in t username c.
Proof.
rewrite loginWithToken_spec. repeat case_match; congruence.
Qed.


Lemma AuthCallback_no_token params c :
truthy (searchParams_get "token" params) = false →
AuthCallback params c
= (Returned tt,
   with_callback_error (Some "Authentication failed. No token received from server.") c).
Proof. intros H. unfold AuthCallback. by rewrite H. Qed.

Lemma truthy_Str v : truthy v = true ↔ ∃ t, v = Str t ∧ t ≠ "".
Proof.
destruct v as [| |s]; simpl; try (split; [done | by intros (? & ? & ?)]).
destruct (String.eqb_spec s ""); simpl; split; try done.
- by intros (? & [= ->] & ?).
- intros _. by exists s.
Qed.

Lemma AuthCallback_token params t c :
searchParams_get "token" params = Str t → t ≠ "" →
let username := or_else (searchParams_get "username" params) "User" in
has_room t username (localStorage c) →
AuthCallback params c
= (Returned tt, with_navigated (λ l, l ++ ["/"]) (logged_in t username c)).
Proof.
intros Ht Hne username Hroom. unfold AuthCallback.
assert (truthy (searchParams_get "token" params) = true) as ->.
{ apply truthy_Str. eauto. }
rewrite Ht. fold username. unfold navigate. eff.
by rewrite loginWithToken_room.
Qed.

Lemma AuthCallback_storage_full params t c :
searchParams_get "token" params = Str t → t ≠ "" →
let username := or_else (searchParams_get "username" params) "User" in
¬ has_room t username (localStorage c) →
∃ c', AuthCallback params c = (Returned tt, c')
      ∧ callback_error c' = Some "Failed to process login token."
      ∧ navigated c' = navigated c ∧ auth c' = auth c.
Proof.
intros Ht Hne username Hroom. unfold AuthCallback.
assert (truthy (searchParams_get "token" params) = true) as ->.
{ apply truthy_Str. eauto. }
rewrite Ht. fold username. unfold navigate, AuthCallback.setError. eff.
rewrite loginWithToken_spec.
destruct (storage_size (<["token" := t]> (items (localStorage c)))
          <=? quota (localStorage c)) eqn:E1;
  [|eexists; split; [reflexivity | done]].
destruct (storage_size (<["user_data" := _]> _) <=? _) eqn:E2;
  [|eexists; split; [reflexivity | done]].
exfalso. apply Hroom. split; by apply Nat.leb_le.
Qed.

Lemma login_ok username password resp j c :
ok resp = true → json resp = inr j →
login username password (Resolves resp) c
= loginWithToken (of_field (access_token j)) username
    (with_sent (λ l, l ++ [login_request username password]) c).
Proof.
intros Hok Hj. unfold login, loginWithToken, fetch, send, await, response_json.
eff. rewrite Hok, Hj. reflexivity.
Qed.

Lemma setItem_sent k v f c :
setItem k v (with_sent f c)
= let '(r, c') := setItem k v c in (r, with_sent f c').
Proof.
rewrite !setItem_spec. cbn. by destruct (_ <=? _).
Qed.

Lemma loginWithToken_sent v username f c :
loginWithToken v username (with_sent f c)
= let '(r, c') := loginWithToken v username c in (r, with_sent f c').
Proof.
unfold loginWithToken, setToken, setUser. eff. rewrite setItem_sent.
destruct (setItem "token" _ c) as [[[]|e] c1]; [|done].
rewrite setItem_sent.
by destruct (setItem "user_data" _ c1) as [[[]|e] c2].
Qed.

Lemma login_password_independent username password password' answer c :
fst (login username password answer c) = fst (login username password' answer c)
∧ with_sent (λ _, []) (snd (login username password answer c))
  = with_sent (λ _, []) (snd (login username password' answer c)).
Proof.
destruct answer as [e|resp].
- by unfold login, fetch, send, await; eff.
- destruct (ok resp) eqn:Hok, (json resp) as [e|j] eqn:Hj.
  + unfold login, fetch, send, await, response_json; eff. by rewrite Hok, Hj.
  + rewrite !(login_ok _ _ resp j) by done. rewrite !loginWithToken_sent.
    by destruct (loginWithToken _ username c) as [r c1].
  + unfold login, fetch, send, await, response_json; eff. by rewrite Hok, Hj.
  + unfold login, fetch, send, await, response_json; eff. by rewrite Hok, Hj.
Qed.

Lemma sendQuestion_not_ok c r :
Js.trim (question (rag c)) ≠ "" → loading (rag c) = false → ok r = false →
sendQuestion (Resolves r) c = (Returned tt, generic_failure c).
Proof.
intros Hq Hl Hok. unfold sendQuestion. eff.
apply String.eqb_neq in Hq. rewrite Hq, Hl. cbn [orb].
unfold fetch, send, await. eff. by rewrite Hok.
Qed.

Lemma sendQuestion_rejected c e :
Js.trim (question (rag c)) ≠ "" → loading (rag c) = false →
includes "401" e = false →
sendQuestion (Rejects e) c = (Returned tt, generic_failure c).
Proof.
intros Hq Hl He. unfold sendQuestion. eff.
apply String.eqb_neq in Hq. rewrite Hq, Hl. cbn [orb].
unfold fetch, send, await. eff. by rewrite He.
Qed.

Lemma fetchFiles_settle_spec a c :
fetchFiles_settle a c
= (Returned tt,
   with_rag (λ r,
     {| messages := messages r; question := question r; loading := loading r;
        fileUploaded := fileUploaded r; uploadStatus := uploadStatus r;
        uploadedFiles := listed a (uploadedFiles r); uploadProgress := uploadProgress r;
        error := error r; isUploading := isUploading r |}) c).
Proof.
unfold fetchFiles_settle, await, response_json, setUploadedFiles, listed. eff.
destruct c as [ls au [] ce nv sn].
destruct a as [e|r]; [done|]. destruct (ok r); [|done]. by destruct (json r).
Qed.

Lemma upload_onload_lists t resp j files_answer c :
  status resp = 200 → json resp = inr j →
  let c' := snd (upload_onload t resp files_answer c) in
  uploadedFiles (rag c') = listed files_answer (uploadedFiles (rag c))
  ∧ sent c' = sent c ++ [files_request t].
Proof.
  intros Hs Hj. unfold upload_onload, response_json, send, then_settle. rewrite Hs, Hj.
  eff. cbn [Nat.eqb].
  destruct (files j); unfold setUploadStatus, setFileUploaded, setUploadProgress,
    setIsUploading; eff; rewrite fetchFiles_settle_spec; done.
Qed.

Lemma issued_nothing e c : sent (snd (react e c)) = sent c → issued e c = [].
Proof. intros H. unfold issued. rewrite H. apply drop_all. Qed.

Lemma issued_one e c r :
  sent (snd (react e c)) = sent c ++ [r] → issued e c = [r].
Proof. intros H. unfold issued. rewrite H. apply drop_app_length. Qed.

Lemma files_request_bears t : bears t (files_request t).
Proof. split; [done|]. unfold data_endpoints. cbn. set_solver. Qed.

Lemma upload_request_bears t files : bears t (upload_request t files).
Proof. split; [done|]. unfold data_endpoints. cbn. set_solver. Qed.

Lemma ask_request_bears t q : bears t (ask_request t q).
Proof. split; [done|]. unfold data_endpoints. cbn. set_solver. Qed.

Lemma reset_request_bears t : bears t (reset_request t).
Proof. split; [done|]. unfold data_endpoints. cbn. set_solver. Qed.

Lemma sent_initial_fetchFiles a c :
  sent (snd (initial_fetchFiles a c)) = sent c
  ∨ sent (snd (initial_fetchFiles a c)) = sent c ++ [files_request (token (auth c))].
Proof.
  unfold initial_fetchFiles, fetch, send, await, response_json. eff.
  destruct (truthy (token (auth c))); [|by left]. right.
  destruct a as [e|r]; [done|]. destruct (ok r); [|done].
  destruct (json r) as [e|d]; [done|]. by destruct (files d) as [[|]|].
Qed.

Lemma sent_fetchFiles t a c :
  sent (snd (fetchFiles t a c)) = sent c ++ [files_request t].
Proof.
  unfold fetchFiles, send. eff. by rewrite fetchFiles_settle_spec.
Qed.

Lemma sent_uploadFile files c :
  sent (snd (uploadFile files c)) = sent c
  ∨ sent (snd (uploadFile files c)) = sent c ++ [upload_request (token (auth c)) files].
Proof.
  unfold uploadFile, send. eff.
  destruct (length files =? 0); [by left|].
  destruct (0 <? _); [by left | by right].
Qed.

Lemma sent_upload_onload t resp a c :
  sent (snd (upload_onload t resp a c)) = sent c
  ∨ sent (snd (upload_onload t resp a c)) = sent c ++ [files_request t].
Proof.
  destruct (decide (status resp = 200)) as [Hs|Hs].
  - destruct (json resp) as [e|j] eqn:Hj.
    + left. unfold upload_onload, response_json. rewrite Hs, Hj. by eff.
    + right. by apply (upload_onload_lists t resp j a c).
  - left. unfold upload_onload, response_json. apply Nat.eqb_neq in Hs as ->.
    eff. by destruct (json resp).
Qed.

Lemma sent_sendQuestion a c :
  sent (snd (sendQuestion a c)) = sent c
  ∨ sent (snd (sendQuestion a c))
    = sent c ++ [ask_request (token (auth c)) (question (rag c))].
Proof.
  unfold sendQuestion, fetch, send, await, response_json. eff.
  destruct (_ || _); [by left|]. right.
  destruct a as [e|r].
  - by destruct (includes "401" e).
  - destruct (ok r); [|done]. cbn [negb].
    destruct (json r) as [e|d]; [|done]. by destruct (includes "401" e).
Qed.

Lemma sent_resetKnowledgeBase confirmed a c :
  sent (snd (resetKnowledgeBase confirmed a c)) = sent c
  ∨ sent (snd (resetKnowledgeBase confirmed a c))
    = sent c ++ [reset_request (token (auth c))].
Proof.
  unfold resetKnowledgeBase, fetch, send, await. eff.
  destruct confirmed; [|by left]. right.
  destruct a as [e|r]; [done|]. by destruct (ok r).
Qed.

(** Whatever an event makes the client issue bears the token of the
    closure that runs. *)
Lemma issued_bear_closure_token e c :
  Forall (bears (closure_token e c)) (issued e c).
Proof.
  destruct e as [a|t a|files|t resp a| |a|confirmed a]; cbn [react closure_token].
  - destruct (sent_initial_fetchFiles a c) as [H|H].
    + by rewrite (issued_nothing (Mounted a)).
    + rewrite (issued_one (Mounted a) _ _ H). repeat constructor; apply files_request_bears.
  - rewrite (issued_one (FilesRefreshed t a) _ _ (sent_fetchFiles t a c)).
    repeat constructor; apply files_request_bears.
  - destruct (sent_uploadFile files c) as [H|H].
    + by rewrite (issued_nothing (FilesChosen files)).
    + rewrite (issued_one (FilesChosen files) _ _ H).
      repeat constructor; apply upload_request_bears.
  - destruct (sent_upload_onload t resp a c) as [H|H].
    + by rewrite (issued_nothing (UploadLoaded t resp a)).
    + rewrite (issued_one (UploadLoaded t resp a) _ _ H).
      repeat constructor; apply files_request_bears.
  - by rewrite (issued_nothing UploadFailed).
  - destruct (sent_sendQuestion a c) as [H|H].
    + by rewrite (issued_nothing (QuestionSent a)).
    + rewrite (issued_one (QuestionSent a) _ _ H).
      repeat constructor; apply ask_request_bears.
  - destruct (sent_resetKnowledgeBase confirmed a c) as [H|H].
    + by rewrite (issued_nothing (ResetClicked confirmed a)).
    + rewrite (issued_one (ResetClicked confirmed a) _ _ H).
      repeat constructor; apply reset_request_bears.
Qed.

Lemma resetKnowledgeBase_ok r c :
ok r = true →
resetKnowledgeBase true (Resolves r) c = (Returned tt, cleared c).
Proof.
intros Hok. unfold resetKnowledgeBase, fetch, send, await. eff. by rewrite Hok.
Qed.

(** C9. A login that completes on an accepted response carrying access
  token [t] leaves in local storage the former items with [token] set
  to [t] and [user_data] set to the JSON text of the object holding
  only the username; the auth state holds [t] and that username;
  [loginWithToken] with the same token and username writes the same; and
  with any other password the login completes with the same storage and
  the same auth state, so the password is in neither. *)
Theorem login_stores_token_and_username username password t resp j c c' :
ok resp = true → json resp = inr j → access_token j = Some t →
login username password (Resolves resp) c = (Returned tt, c') →
items (localStorage c')
  = <["user_data" := JSON.stringify [("username", username)]]>
      (<["token" := t]> (items (localStorage c)))
∧ auth c' = {| user := Some {| username := username |}; token := Str t;
               auth_loading := auth_loading (auth c) |}
∧ loginWithToken (Str t) username c = (Returned tt, logged_in t username c)
∧ localStorage c' = localStorage (logged_in t username c)
∧ auth c' = auth (logged_in t username c)
∧ ∀ password',
    ∃ c'', login username password' (Resolves resp) c = (Returned tt, c'')
           ∧ localStorage c'' = localStorage c' ∧ auth c'' = auth c'.
Proof.
intros Hok Hj Ht Hlogin.
rewrite (login_ok _ _ resp j), Ht, loginWithToken_sent in Hlogin by done.
cbn [of_field] in Hlogin.
destruct (loginWithToken (Str t) username c) as [r c1] eqn:Hlw.
injection Hlogin as -> <-.
apply loginWithToken_completed in Hlw as Hc1. subst c1.
split_and!; try done.
intros password'. eexists. split.
- rewrite (login_ok _ _ resp j), Ht, loginWithToken_sent by done.
  cbn [of_field]. rewrite Hlw. reflexivity.
- done.
Qed.

Lemma login_stores_token_and_username_witness :
items (localStorage
         (snd (login "alice" "s3cret"
                 (Resolves (Demo.ok_response (Demo.json_with None (Some "ta"))))
                 Demo.fresh)))
= <["user_data" := JSON.stringify [("username", "alice")]]>
    (<["token" := "ta"]> (items (localStorage Demo.fresh))).
Proof.
refine (proj1 (login_stores_token_and_username "alice" "s3cret" "ta"
                 (Demo.ok_response (Demo.json_with None (Some "ta")))
                 (Demo.json_with None (Some "ta")) Demo.fresh _ _ _ _ _));
  reflexivity.
Defined.

(** C10, as stated, fails: a callback URL whose [token] parameter is
  present but empty logs nobody in. *)
Lemma callback_counterexample : ¬ token_parameter_logs_in.
Proof.
intros H.
destruct (H [("token", "")] "" Demo.fresh) as [Htok _].
- reflexivity.
- split; vm_compute; lia.
- discriminate Htok.
Qed.

(** C10, amended. When the [token] parameter of the callback URL is
  present and not empty and local storage takes the two items, the
  client logs in with that token, under the [username] parameter or
  under "User" when that parameter is absent or empty, and goes to the
  home route; when the [token] parameter is absent or empty, nothing is
  stored, nobody is logged in, no navigation happens and the error
  message is set. *)
Theorem AuthCallback_outcome params c :
let username := or_else (searchParams_get "username" params) "User" in
(∀ t, searchParams_get "token" params = Str t → t ≠ "" →
      has_room t username (localStorage c) →
      AuthCallback params c
      = (Returned tt, with_navigated (λ l, l ++ ["/"]) (logged_in t username c)))
∧ (searchParams_get "token" params = Null ∨ searchParams_get "token" params = Str "" →
   AuthCallback params c
   = (Returned tt,
      with_callback_error
        (Some "Authentication failed. No token received from server.") c))
∧ (searchParams_get "username" params = Null
   ∨ searchParams_get "username" params = Str "" → username = "User")
∧ (∀ u, searchParams_get "username" params = Str u → u ≠ "" → username = u).
Proof.
intros username. split_and!.
- intros t Ht Hne Hroom. by apply AuthCallback_token.
- intros [H|H]; apply AuthCallback_no_token; by rewrite H.
- subst username. by intros [-> | ->].
- subst username. intros u -> Hne. cbn. by apply String.eqb_neq in Hne as ->.
Qed.

Lemma AuthCallback_outcome_witness :
AuthCallback [("token", "ta")] Demo.fresh
= (Returned tt, with_navigated (λ l, l ++ ["/"]) (logged_in "ta" "User" Demo.fresh))
∧ AuthCallback [("username", "alice")] Demo.fresh
  = (Returned tt,
     with_callback_error
       (Some "Authentication failed. No token received from server.") Demo.fresh).
Proof.
split.
- refine (proj1 (AuthCallback_outcome [("token", "ta")] Demo.fresh) "ta" _ _ _).
  + reflexivity.
  + discriminate.
  + split; vm_compute; lia.
- refine (proj1 (proj2 (AuthCallback_outcome [("username", "alice")] Demo.fresh)) _).
  left. reflexivity.
Defined.

(** C6. When the upload request loads with status 200 and a parsable
    body, the client issues exactly one request: a GET of [/api/files],
    the file-list endpoint, bearing the token of the render that sent the
    upload.  The file list it then holds is the list that endpoint
    answered (or, when that answer is unusable, the list held before); it
    is the same whatever list the upload response itself carried. *)
Theorem file_list_comes_from_list_files t resp j files_answer c :
  status resp = 200 → json resp = inr j →
  let c' := snd (upload_onload t resp files_answer c) in
  (∃ r, issued (UploadLoaded t resp files_answer) c = [r]
        ∧ method r = "GET" ∧ url r = "/api/files" ∧ body r = NoBody
        ∧ header "Authorization" (headers r) = Some ("Bearer " +:+ to_String t))
  ∧ uploadedFiles (rag c') = listed files_answer (uploadedFiles (rag c))
  ∧ (∀ r d, files_answer = Resolves r → ok r = true → json r = inr d →
            uploadedFiles (rag c') = default [] (files d))
  ∧ (∀ resp' j', status resp' = 200 → json resp' = inr j' →
       uploadedFiles (rag (snd (upload_onload t resp' files_answer c)))
       = uploadedFiles (rag c')).
Proof.
  intros Hs Hj c'.
  destruct (upload_onload_lists t resp j files_answer c Hs Hj) as [Hl Hsent].
  split_and!.
  - exists (files_request t). split_and!; try done.
    by apply (issued_one (UploadLoaded t resp files_answer)).
  - exact Hl.
  - intros r d -> Hok Hd. subst c'. rewrite Hl. unfold listed. by rewrite Hok, Hd.
  - intros resp' j' Hs' Hj'.
    destruct (upload_onload_lists t resp' j' files_answer c Hs' Hj') as [Hl' _].
    subst c'. by rewrite Hl, Hl'.
Qed.

Lemma file_list_comes_from_list_files_witness :
  uploadedFiles
    (rag (snd (upload_onload (Str "ta")
                 (Demo.ok_response (Demo.json_with (Some ["new.pdf"]) None))
                 (Resolves (Demo.ok_response
                              (Demo.json_with (Some ["old.pdf"; "new.pdf"]) None)))
                 Demo.fresh)))
  = ["old.pdf"; "new.pdf"].
Proof.
  refine (proj1 (proj2 (proj2
            (file_list_comes_from_list_files (Str "ta")
               (Demo.ok_response (Demo.json_with (Some ["new.pdf"]) None))
               (Demo.json_with (Some ["new.pdf"]) None)
               (Resolves (Demo.ok_response
                            (Demo.json_with (Some ["old.pdf"; "new.pdf"]) None)))
               Demo.fresh _ _)))
            (Demo.ok_response (Demo.json_with (Some ["old.pdf"; "new.pdf"]) None))
            (Demo.json_with (Some ["old.pdf"; "new.pdf"]) None) _ _ _);
    reflexivity.
Defined.




(** C7, as stated, fails: on an empty batch the client reports nothing
    and sends nothing. *)
Lemma empty_batch_counterexample : ¬ empty_batch_reported.
Proof.
  intros H. destruct (H Demo.fresh) as [E|E]; by apply E.
Qed.

(** C7, amended. Given an empty batch the client returns at once: it
    issues no request, reports no rejection and leaves its state,
    the error included, as it was. *)
Theorem empty_batch_ignored_by_client c :
  uploadFile [] c = (Returned tt, c)
  ∧ issued (FilesChosen []) c = []
  ∧ error (rag (snd (uploadFile [] c))) = error (rag c).
Proof.
  split_and!; [done | | done].
  by apply (issued_nothing (FilesChosen [])).
Qed.

End ClientFacts.

(** ** The core and the client against it *)

Section CoreFacts.
Import Core Api.
Variable svc : Services.
Variable sa : SessionAuthority.
Implicit Types (st : gmap UserId VectorIndex) (u : UserId).

Lemma open_or_create_agree u st1 st2 :
  st1 !! u = st2 !! u → open_or_create u st1 = open_or_create u st2.
Proof. unfold open_or_create. by intros ->. Qed.

Lemma insert_other u u' filename cs st :
  u' ≠ u → insert u filename cs st !! u' = st !! u'.
Proof. intros H. unfold insert. by rewrite lookup_insert_ne. Qed.

Lemma insert_agree u filename cs st1 st2 :
  st1 !! u = st2 !! u →
  insert u filename cs st1 !! u = insert u filename cs st2 !! u.
Proof.
  intros H. unfold insert. rewrite !lookup_insert_eq.
  by rewrite (open_or_create_agree u st1 st2 H).
Qed.

Lemma ingest_other u u' file_name file_bytes st :
  u' ≠ u → snd (ingest svc u file_name file_bytes st) !! u' = st !! u'.
Proof.
  intros H. unfold ingest.
  destruct (supported file_name); [|done]. cbn [negb].
  destruct (extract_text svc file_bytes) as [[|a text]|]; [done| |done].
  destruct (embed_all _ _ _ _); [|done]. by apply insert_other.
Qed.

Lemma ingest_agree u file_name file_bytes st1 st2 :
  st1 !! u = st2 !! u →
  fst (ingest svc u file_name file_bytes st1) = fst (ingest svc u file_name file_bytes st2)
  ∧ snd (ingest svc u file_name file_bytes st1) !! u
    = snd (ingest svc u file_name file_bytes st2) !! u.
Proof.
  intros H. unfold ingest.
  destruct (supported file_name); [|done]. cbn [negb].
  destruct (extract_text svc file_bytes) as [[|a text]|]; [done| |done].
  destruct (embed_all _ _ _ _); [|done]. split; [done|]. by apply insert_agree.
Qed.

Lemma ingest_batch_other u u' files st :
  u' ≠ u → snd (ingest_batch svc u files st) !! u' = st !! u'.
Proof.
  intros H. revert st. induction files as [|f files IH]; intros st; [done|].
  cbn [ingest_batch].
  destruct (ingest svc u (Http.name f) (Http.content f) st) as [r st1] eqn:E1.
  destruct (ingest_batch svc u files st1) as [rs st2] eqn:E2. cbn [snd].
  replace st2 with (snd (ingest_batch svc u files st1)) by by rewrite E2.
  rewrite IH. replace st1 with (snd (ingest svc u (Http.name f) (Http.content f) st))
    by by rewrite E1.
  by apply ingest_other.
Qed.

Lemma ingest_batch_agree u files st1 st2 :
  st1 !! u = st2 !! u →
  fst (ingest_batch svc u files st1) = fst (ingest_batch svc u files st2)
  ∧ snd (ingest_batch svc u files st1) !! u = snd (ingest_batch svc u files st2) !! u.
Proof.
  revert st1 st2. induction files as [|f files IH]; intros st1 st2 H; [done|].
  cbn [ingest_batch].
  destruct (ingest_agree u (Http.name f) (Http.content f) st1 st2 H) as [Hr Hs].
  destruct (ingest svc u _ _ st1) as [r1 s1], (ingest svc u _ _ st2) as [r2 s2].
  cbn [fst snd] in Hr, Hs. subst r2.
  destruct (IH s1 s2 Hs) as [Hrs Hss].
  destruct (ingest_batch svc u files s1) as [rs1 t1],
           (ingest_batch svc u files s2) as [rs2 t2].
  cbn [fst snd] in *. by subst rs2.
Qed.

Lemma search_agree u q k st1 st2 :
  st1 !! u = st2 !! u → search u q k st1 = search u q k st2.
Proof. intros H. unfold search. by rewrite (open_or_create_agree u st1 st2 H). Qed.

Lemma list_files_agree u st1 st2 :
  st1 !! u = st2 !! u → list_files u st1 = list_files u st2.
Proof. intros H. unfold list_files. by rewrite (open_or_create_agree u st1 st2 H). Qed.

Lemma answer_agree u question st1 st2 :
  st1 !! u = st2 !! u → answer svc u question st1 = answer svc u question st2.
Proof.
  intros H. unfold answer.
  rewrite (open_or_create_agree u st1 st2 H).
  destruct (_ =? _); [done|]. destruct (embed svc question); [|done].
  by rewrite (search_agree u _ _ st1 st2 H).
Qed.

Lemma perform_other u u' c st :
  u' ≠ u → snd (perform svc u c st) !! u' = st !! u'.
Proof.
  intros H. destruct c as [files|question| |]; cbn [perform].
  - destruct files as [|f files]; [done|].
    pose proof (ingest_batch_other u u' (f :: files) st H) as E.
    by destruct (ingest_batch svc u (f :: files) st).
  - destruct (String.eqb question ""); [done|].
    by destruct (answer svc u question st) as [[]|].
  - done.
  - cbn [snd]. unfold clear. by rewrite lookup_insert_ne.
Qed.

Lemma perform_agree u c st1 st2 :
  st1 !! u = st2 !! u →
  fst (perform svc u c st1) = fst (perform svc u c st2)
  ∧ snd (perform svc u c st1) !! u = snd (perform svc u c st2) !! u.
Proof.
  intros H. destruct c as [files|question| |]; cbn [perform].
  - destruct files as [|f files]; [done|].
    destruct (ingest_batch_agree u (f :: files) st1 st2 H) as [Hr Hs].
    destruct (ingest_batch svc u (f :: files) st1) as [rs1 t1],
             (ingest_batch svc u (f :: files) st2) as [rs2 t2].
    cbn [fst snd] in *. subst rs2. by rewrite (list_files_agree u t1 t2 Hs).
  - destruct (String.eqb question ""); [done|].
    rewrite (answer_agree u question st1 st2 H).
    by destruct (answer svc u question st2) as [[]|].
  - cbn [fst snd]. by rewrite (list_files_agree u st1 st2 H).
  - cbn [fst snd]. unfold clear. by rewrite !lookup_insert_eq.
Qed.

Lemma handle_caller rq st :
  handle svc sa rq st =
  match caller sa rq with
  | Some u => perform svc u (call rq) st
  | None =>
      match authorize sa (time rq) (authorization rq) with
      | inl e => (Failed (Unauthorized e), st)
      | inr u => perform svc u (call rq) st
      end
  end.
Proof. unfold handle, caller. by destruct (authorize _ _ _). Qed.

Lemma handle_other rq u st :
  caller sa rq ≠ Some u → snd (handle svc sa rq st) !! u = st !! u.
Proof.
  unfold handle, caller. destruct (authorize _ _ _) as [e|u']; [done|].
  intros H. apply perform_other. congruence.
Qed.

Lemma handle_agree rq u st1 st2 :
  caller sa rq = Some u → st1 !! u = st2 !! u →
  fst (handle svc sa rq st1) = fst (handle svc sa rq st2)
  ∧ snd (handle svc sa rq st1) !! u = snd (handle svc sa rq st2) !! u.
Proof.
  unfold handle, caller. destruct (authorize _ _ _) as [e|u']; [done|].
  intros [= ->]. apply perform_agree.
Qed.

(** The replies a user sees, and the index that user ends up with,
    depend on nothing but that user's own requests and index. *)
Lemma run_view u (keep : Request → bool) rqs st1 st2 :
  (∀ rq, caller sa rq = Some u → keep rq = true) →
  st1 !! u = st2 !! u →
  replies_to sa u (fst (run svc sa rqs st1))
  = replies_to sa u (fst (run svc sa (List.filter keep rqs) st2))
  ∧ snd (run svc sa rqs st1) !! u
    = snd (run svc sa (List.filter keep rqs) st2) !! u.
Proof.
  intros Hkeep. revert st1 st2.
  induction rqs as [|rq rqs IH]; intros st1 st2 H; [done|].
  cbn [run List.filter].
  destruct (decide (caller sa rq = Some u)) as [Hc|Hc].
  - rewrite (Hkeep rq Hc). cbn [run].
    destruct (handle_agree rq u st1 st2 Hc H) as [Hr Hs].
    destruct (handle svc sa rq st1) as [r1 s1], (handle svc sa rq st2) as [r2 s2].
    cbn [fst snd] in Hr, Hs. subst r2.
    destruct (IH s1 s2 Hs) as [IHr IHs].
    destruct (run svc sa rqs s1) as [l1 t1],
             (run svc sa (List.filter keep rqs) s2) as [l2 t2].
    cbn [fst snd] in *. split; [|done].
    unfold replies_to in *. cbn [List.filter fst].
    rewrite bool_decide_eq_true_2 by done. cbn [map snd]. by f_equal.
  - pose proof (handle_other rq u st1 Hc) as Hs1.
    destruct (handle svc sa rq st1) as [r1 s1]. cbn [snd] in Hs1.
    destruct (keep rq).
    + cbn [run]. pose proof (handle_other rq u st2 Hc) as Hs2.
      destruct (handle svc sa rq st2) as [r2 s2]. cbn [snd] in Hs2.
      destruct (IH s1 s2) as [IHr IHs]; [congruence|].
      destruct (run svc sa rqs s1) as [l1 t1],
               (run svc sa (List.filter keep rqs) s2) as [l2 t2].
      cbn [fst snd] in *. split; [|done].
      unfold replies_to in *. cbn [List.filter fst].
      by rewrite bool_decide_eq_false_2 by done.
    + destruct (IH s1 st2) as [IHr IHs]; [congruence|].
      destruct (run svc sa rqs s1) as [l1 t1],
               (run svc sa (List.filter keep rqs) st2) as [l2 t2].
      cbn [fst snd] in *. split; [|done].
      unfold replies_to in *. cbn [List.filter fst].
      by rewrite bool_decide_eq_false_2 by done.
Qed.

Lemma filter_true {X} (l : list X) : List.filter (λ _, true) l = l.
Proof. induction l; [done|]. simpl. by f_equal. Qed.


Lemma insert_by_elem d c x sorted : x ∈ insert_by d c sorted ↔ x = c ∨ x ∈ sorted.
Proof.
  induction sorted as [|y sorted IH]; cbn [insert_by].
  - by rewrite elem_of_cons.
  - destruct (_ <=? _)%Z; [by rewrite elem_of_cons|].
    rewrite !elem_of_cons, IH. tauto.
Qed.

Lemma sort_by_elem d x l : x ∈ sort_by d l ↔ x ∈ l.
Proof.
  unfold sort_by. induction l as [|y l IH]; cbn [foldr]; [done|].
  by rewrite insert_by_elem, IH, elem_of_cons.
Qed.

Lemma search_within u q k st c :
  c ∈ search u q k st → c ∈ chunks (open_or_create u st).
Proof.
  unfold search. intros H. apply elem_of_take in H as (i & H & _).
  apply list_elem_of_lookup_2 in H. by apply sort_by_elem in H.
Qed.

Lemma search_cleared u q k st : search u q k (clear u st) = [].
Proof.
  unfold search, clear, open_or_create. rewrite lookup_insert_eq. cbn. by rewrite take_nil.
Qed.

Lemma answer_empty_iff u question st :
  answer svc u question st = inl EmptyIndex ↔ chunks (open_or_create u st) = [].
Proof.
  unfold answer. destruct (chunks (open_or_create u st)) as [|c cs] eqn:E; cbn.
  - done.
  - destruct (embed svc question); [|done]. by destruct (generate svc _).
Qed.

Lemma caller_without u rq : caller sa rq = Some u → ∀ u', u' ≠ u →
  negb (bool_decide (caller sa rq = Some u')) = true.
Proof.
  intros H u' Hne. rewrite bool_decide_eq_false_2; [done|]. congruence.
Qed.

Lemma substring_all s : String.substring 0 (String.length s) s = s.
Proof. induction s as [|a s IH]; [done|]. cbn. by rewrite IH. Qed.

Lemma bearer_token_bearer tok : bearer_token (Some ("Bearer " +:+ tok)) = Some tok.
Proof.
  unfold bearer_token.
  change ("Bearer " +:+ tok)
    with (String "B" (String "e" (String "a" (String "r"
           (String "e" (String "r" (String " " tok))))))).
  assert (String.prefix "Bearer " (String "B" (String "e" (String "a" (String "r"
           (String "e" (String "r" (String " " tok))))))) = true) as ->.
  { simpl. by destruct tok. }
  f_equal. simpl. rewrite Nat.sub_0_r. apply substring_all.
Qed.

Lemma handle_unauthorized rq st e :
  authorize sa (time rq) (authorization rq) = inl e →
  handle svc sa rq st = (Failed (Unauthorized e), st).
Proof. intros H. unfold handle. by rewrite H. Qed.

Lemma authorize_absent now : authorize sa now None = inl TokenInvalid.
Proof. done. Qed.

Lemma authorize_unknown now tok :
  tokens sa !! tok = None →
  authorize sa now (Some ("Bearer " +:+ tok)) = inl TokenInvalid.
Proof.
  intros H. unfold authorize. rewrite bearer_token_bearer. unfold validate. by rewrite H.
Qed.

Lemma authorize_expired now tok u expiry :
  tokens sa !! tok = Some (u, expiry) → expiry ≤ now →
  authorize sa now (Some ("Bearer " +:+ tok)) = inl TokenExpired.
Proof.
  intros H Hle. unfold authorize. rewrite bearer_token_bearer. unfold validate.
  rewrite H. by apply Nat.leb_le in Hle as ->.
Qed.

Lemma ingest_unsupported u file_name file_bytes st :
  supported file_name = false →
  ingest svc u file_name file_bytes st = (Rejected "UnsupportedFileType", st).
Proof. intros H. unfold ingest. by rewrite H. Qed.

Lemma embed_all_total file_name pos pieces :
  (∀ p, is_Some (embed svc p)) →
  ∃ cs, embed_all svc file_name pos pieces = Some cs ∧ length cs = length pieces.
Proof.
  intros Htot. revert pos. induction pieces as [|p pieces IH]; intros pos.
  - by exists [].
  - cbn. destruct (Htot p) as [v ->]. destruct (IH (S pos)) as (cs & -> & Hlen).
    eexists. split; [done|]. cbn. by rewrite Hlen.
Qed.

Lemma ingest_valid u file_name file_bytes st text :
  supported file_name = true →
  extract_text svc file_bytes = Some text → text ≠ "" →
  (∀ p, is_Some (embed svc p)) →
  ∃ n, fst (ingest svc u file_name file_bytes st) = Indexed n.
Proof.
  intros Hs He Hne Htot. unfold ingest. rewrite Hs, He. cbn [negb].
  destruct text as [|a text]; [done|].
  destruct (embed_all_total file_name 0
              (map string_of_list_ascii
                 (split (list_ascii_of_string (String a text)) (chunk_size svc) (overlap svc)))
              Htot) as (cs & -> & _).
  by eexists.
Qed.

Lemma ingest_batch_independent u files st :
  let '(rs, st') := ingest_batch svc u files st in
  length rs = length files
  ∧ (∀ i f, files !! i = Some f → supported_file f = false →
       rs !! i = Some (Rejected "UnsupportedFileType"))
  ∧ (∀ i f text, files !! i = Some f → supported_file f = true →
       extract_text svc (Http.content f) = Some text → text ≠ "" →
       (∀ p, is_Some (embed svc p)) →
       ∃ n, rs !! i = Some (Indexed n))
  ∧ ingest_batch svc u (List.filter supported_file files) st
    = (supported_outcomes files rs, st').
Proof.
  revert st. induction files as [|f files IH]; intros st; [done|].
  cbn [ingest_batch].
  destruct (ingest svc u (Http.name f) (Http.content f) st) as [r st1] eqn:E1.
  specialize (IH st1).
  destruct (ingest_batch svc u files st1) as [rs st2] eqn:E2.
  destruct IH as (Hlen & Hbad & Hgood & Hfilter).
  split_and!.
  - cbn. by rewrite Hlen.
  - intros [|i] g Hg Hsup; cbn in Hg |- *.
    + injection Hg as <-. rewrite ingest_unsupported in E1 by done. congruence.
    + by eapply Hbad.
  - intros [|i] g text Hg Hsup Hex Hne Htot; cbn in Hg |- *.
    + injection Hg as <-.
      destruct (ingest_valid u (Http.name f) (Http.content f) st text) as [n Hn];
        try done.
      rewrite E1 in Hn. cbn in Hn. subst r. by exists n.
    + by eapply Hgood.
  - unfold supported_outcomes. cbn [List.filter zip zip_with fst].
    destruct (supported_file f) eqn:Hsup.
    + cbn [ingest_batch map snd]. rewrite E1, Hfilter. done.
    + rewrite ingest_unsupported in E1 by done. injection E1 as <- <-. exact Hfilter.
Qed.

(** C1. For users [u1 ≠ u2]: an ingestion under [u1] changes neither
    what a search nor what an answer for [u2] returns; a search for [u2]
    returns only chunks of [u2]'s own index; and in every sequence of
    requests the replies to the requests whose tokens validate to [u2],
    and what a search for [u2] finds afterwards, are the same as when
    all requests whose tokens validate to [u1] are left out.  So nothing
    that [u1] ingested reaches [u2]. *)
Theorem user_isolation (u1 u2 : UserId) rqs st :
  u1 ≠ u2 →
  (∀ file_name file_bytes q k question,
     search u2 q k (snd (ingest svc u1 file_name file_bytes st)) = search u2 q k st
     ∧ answer svc u2 question (snd (ingest svc u1 file_name file_bytes st))
       = answer svc u2 question st)
  ∧ (∀ q k c, c ∈ search u2 q k st → c ∈ chunks (open_or_create u2 st))
  ∧ replies_to sa u2 (fst (run svc sa rqs st))
    = replies_to sa u2 (fst (run svc sa (without sa u1 rqs) st))
  ∧ (∀ q k, search u2 q k (snd (run svc sa rqs st))
            = search u2 q k (snd (run svc sa (without sa u1 rqs) st))).
Proof.
  intros Hne.
  assert (∀ rq, caller sa rq = Some u2 →
            negb (bool_decide (caller sa rq = Some u1)) = true) as Hkeep.
  { intros rq H. by apply (caller_without u2). }
  destruct (run_view u2 _ rqs st st Hkeep eq_refl) as [Hr Hs].
  split_and!.
  - intros file_name file_bytes q k question.
    pose proof (ingest_other u1 u2 file_name file_bytes st ltac:(done)) as H.
    split; [by apply search_agree | by apply answer_agree].
  - intros q k c. apply search_within.
  - exact Hr.
  - intros q k. by apply search_agree.
Qed.

(** C8. A reset made with a token that validates to [u] is answered as
    done and leaves [u] with the empty index: the file list is empty,
    every search is empty and a question finds the empty index; whatever
    the index held before, every later sequence of requests gets [u] the
    same replies, so nothing brings the old index back.  The client, on
    the accepted reset, empties its file list and its messages. *)
Theorem reset_clears rq u st r c :
  caller sa rq = Some u → call rq = Reset → Http.ok r = true →
  let st' := snd (handle svc sa rq st) in
  fst (handle svc sa rq st) = ResetDone
  ∧ list_files u st' = []
  ∧ (∀ q k, search u q k st' = [])
  ∧ (∀ question, answer svc u question st' = inl EmptyIndex)
  ∧ (∀ st0 rqs, replies_to sa u (fst (run svc sa rqs st'))
                = replies_to sa u (fst (run svc sa rqs (clear u st0))))
  ∧ RAGInterface.resetKnowledgeBase true (Http.Resolves r) c
    = (Eff.Returned tt, Screen.cleared c)
  ∧ Client.uploadedFiles (Client.rag (Screen.cleared c)) = []
  ∧ Client.messages (Client.rag (Screen.cleared c)) = []
  ∧ Client.fileUploaded (Client.rag (Screen.cleared c)) = false.
Proof.
  intros Hc Hcall Hok st'.
  assert (handle svc sa rq st = (ResetDone, clear u st)) as Hh.
  { rewrite handle_caller, Hc, Hcall. reflexivity. }
  subst st'. rewrite Hh. cbn [fst snd]. split_and!; try done.
  - unfold list_files, clear, open_or_create. by rewrite lookup_insert_eq.
  - intros q k. apply search_cleared.
  - intros question. apply answer_empty_iff.
    unfold clear, open_or_create. by rewrite lookup_insert_eq.
  - intros st0 rqs.
    destruct (run_view u (λ _, true) rqs (clear u st) (clear u st0)) as [H _].
    + done.
    + unfold clear. by rewrite !lookup_insert_eq.
    + by rewrite filter_true in H.
  - by apply resetKnowledgeBase_ok.
Qed.

(** C5. Every request an event of the document screen makes the client
    issue goes to a data-bearing endpoint with the header [Bearer], a
    space and a token: the token the client holds for the mount effect,
    a chosen batch, a question and a reset, but for the load of an upload
    the token of the render that sent the upload.  So when a batch of PDFs
    is sent, the client logs out, and the upload then loads with status
    200, the file list is requested with the token of before the logout
    although the client holds none.  A request whose header is absent or
    whose token does not validate is answered as unauthorized, the indexes
    staying as they were. *)
Theorem requests_bear_the_closure_token e c files resp body a rq st err :
  files ≠ [] → Forall (λ f, RAGInterface.is_pdf_name f = true) files →
  Http.status resp = 200 → Http.json resp = inr body →
  authorize sa (time rq) (authorization rq) = inl err →
  Forall (Screen.bears (Screen.closure_token e c)) (Screen.issued e c)
  ∧ (let t := Client.token (Client.auth c) in
     let c1 := snd (RAGInterface.uploadFile files c) in
     let c2 := snd (AuthContext.logout c1) in
     Screen.issued (Screen.FilesChosen files) c = [RAGInterface.upload_request t files]
     ∧ Client.token (Client.auth c2) = Js.Null
     ∧ ∃ r, Screen.issued (Screen.UploadLoaded t resp a) c2 = [r]
            ∧ Http.url r = "/api/files"
            ∧ Http.header "Authorization" (Http.headers r)
              = Some ("Bearer " +:+ Js.to_String t))
  ∧ handle svc sa rq st = (Failed (Unauthorized err), st)
  ∧ (∀ now, authorize sa now None = inl TokenInvalid)
  ∧ (∀ now tok, tokens sa !! tok = None →
       authorize sa now (Some ("Bearer " +:+ tok)) = inl TokenInvalid)
  ∧ (∀ now tok u expiry, tokens sa !! tok = Some (u, expiry) → expiry ≤ now →
       authorize sa now (Some ("Bearer " +:+ tok)) = inl TokenExpired).
Proof.
  intros Hne Hpdf Hs Hj Herr. split_and!.
  - apply issued_bear_closure_token.
  - destruct (uploadFile_pdfs files c Hne Hpdf) as (c1 & E & Hsent & _).
    cbn zeta. split_and!.
    + apply (issued_one (Screen.FilesChosen files)). cbn [Screen.react]. by rewrite E.
    + done.
    + exists (RAGInterface.files_request (Client.token (Client.auth c))).
      split_and!; try done.
      apply (issued_one (Screen.UploadLoaded _ resp a)). cbn [Screen.react].
      by apply (upload_onload_lists _ resp body).
  - by apply handle_unauthorized.
  - apply authorize_absent.
  - apply authorize_unknown.
  - apply authorize_expired.
Qed.

(** C4, amended. The answer operation fails with the empty-index
    condition exactly when the user's index holds no chunk, and that
    failure reaches the client with a status that is not OK.  The client
    treats it as it treats every response that is not OK and every network
    failure whose message does not contain 401: the question is recorded,
    the one generic error is shown and the one generic error reply is
    added.  At the client the empty index is therefore not told apart
    from any other failure. *)
Theorem answer_failures_look_alike u asked st c r e :
  Js.trim (Client.question (Client.rag c)) ≠ "" →
  Client.loading (Client.rag c) = false →
  Http.ok r = false → Js.includes "401" e = false →
  (answer svc u asked st = inl EmptyIndex ↔ chunks (open_or_create u st) = [])
  ∧ Http.ok (Screen.failure_response EmptyState) = false
  ∧ RAGInterface.sendQuestion (Http.Resolves (Screen.failure_response EmptyState)) c
    = (Eff.Returned tt, Screen.generic_failure c)
  ∧ RAGInterface.sendQuestion (Http.Resolves r) c
    = (Eff.Returned tt, Screen.generic_failure c)
  ∧ RAGInterface.sendQuestion (Http.Rejects e) c
    = (Eff.Returned tt, Screen.generic_failure c)
  ∧ Client.error (Client.rag (Screen.generic_failure c))
    = "Failed to get response. Please ensure the backend is running.".
Proof.
  intros Hq Hl Hr He. split_and!.
  - apply answer_empty_iff.
  - reflexivity.
  - by apply sendQuestion_not_ok.
  - by apply sendQuestion_not_ok.
  - by apply sendQuestion_rejected.
  - reflexivity.
Qed.

(** An empty batch that reaches the upload operation is rejected as bad
    input and the indexes stay as they were. *)
Lemma empty_batch_rejected_by_core u st :
  perform svc u (Upload []) st = (Failed (BadInput "EmptyBatch"), st).
Proof. reflexivity. Qed.

End CoreFacts.

Lemma user_isolation_witness :
  Api.replies_to Demo.authority "bob"
    (fst (Api.run Demo.services Demo.authority Demo.session ∅))
  = Api.replies_to Demo.authority "bob"
      (fst (Api.run Demo.services Demo.authority
              (Api.without Demo.authority "alice" Demo.session) ∅)).
Proof.
  refine (proj1 (proj2 (proj2
            (user_isolation Demo.services Demo.authority "alice" "bob"
               Demo.session ∅ _)))).
  discriminate.
Defined.

Lemma reset_clears_witness :
  Core.list_files "alice"
    (snd (Api.handle Demo.services Demo.authority (Demo.by_alice Api.Reset)
            (snd (Api.run Demo.services Demo.authority Demo.session ∅))))
  = [].
Proof.
  refine (proj1 (proj2
            (reset_clears Demo.services Demo.authority (Demo.by_alice Api.Reset) "alice"
               (snd (Api.run Demo.services Demo.authority Demo.session ∅))
               (Demo.ok_response (Demo.json_with None None)) Demo.fresh _ _ _)));
    reflexivity.
Defined.

Lemma requests_bear_the_closure_token_witness :
  Client.token (Client.auth
    (snd (AuthContext.logout
            (snd (RAGInterface.uploadFile [Demo.policy_pdf] Demo.asking)))))
  = Js.Null
  ∧ ∃ r, Screen.issued
           (Screen.UploadLoaded (Js.Str "ta")
              (Demo.ok_response (Demo.json_with (Some ["policy.pdf"]) None))
              (Http.Rejects "offline"))
           (snd (AuthContext.logout
                   (snd (RAGInterface.uploadFile [Demo.policy_pdf] Demo.asking))))
         = [r]
         ∧ Http.url r = "/api/files"
         ∧ Http.header "Authorization" (Http.headers r) = Some "Bearer ta".
Proof.
  assert (Forall (λ f, RAGInterface.is_pdf_name f = true) [Demo.policy_pdf]) as Hpdf
    by (repeat constructor).
  assert ([Demo.policy_pdf] ≠ []) as Hne by discriminate.
  pose proof (requests_bear_the_closure_token Demo.services Demo.authority
                (Screen.QuestionSent (Http.Rejects "offline")) Demo.asking
                [Demo.policy_pdf]
                (Demo.ok_response (Demo.json_with (Some ["policy.pdf"]) None))
                (Demo.json_with (Some ["policy.pdf"]) None) (Http.Rejects "offline")
                {| Api.time := 10; Api.authorization := Some "Bearer null";
                   Api.call := Api.Files |} ∅ Core.TokenInvalid
                Hne Hpdf eq_refl eq_refl eq_refl) as H.
  exact (proj2 (proj1 (proj2 H))).
Defined.

(** C4, as stated, fails: the client ends in the same state on the
    failure for an empty index as on the failure of a generation. *)
Lemma empty_index_counterexample : ¬ Screen.empty_index_distinguishable.
Proof.
  intros H.
  destruct (H Demo.services "alice" "refund?" ∅ Demo.asking "Failed to fetch")
    as (_ & Hne & _).
  - reflexivity.
  - vm_compute. discriminate.
  - reflexivity.
  - apply Hne. by rewrite !sendQuestion_not_ok.
Qed.

Lemma answer_failures_look_alike_witness :
  RAGInterface.sendQuestion (Http.Resolves (Screen.failure_response Api.EmptyState))
    Demo.asking
  = (Eff.Returned tt, Screen.generic_failure Demo.asking)
  ∧ RAGInterface.sendQuestion (Http.Resolves (Demo.failure 503 "GenerationError"))
      Demo.asking
    = (Eff.Returned tt, Screen.generic_failure Demo.asking).
Proof.
  assert (Js.trim (Client.question (Client.rag Demo.asking)) ≠ "") as Hq
    by (vm_compute; discriminate).
  pose proof (answer_failures_look_alike Demo.services "alice" "refund?" ∅ Demo.asking
                (Demo.failure 503 "GenerationError") "Failed to fetch"
                Hq eq_refl eq_refl eq_refl) as H.
  exact (conj (proj1 (proj2 (proj2 H))) (proj1 (proj2 (proj2 (proj2 H))))).
Defined.

(** The scenario of the specification on the modelled core. *)
Example scenario_replies :
  map snd (fst (Api.run Demo.services Demo.authority Demo.scenario ∅))
  = [Api.Uploaded [Core.Rejected "UnsupportedFileType"; Core.Indexed 4] 1 ["policy.pdf"];
     Api.FileList ["policy.pdf"];
     Api.Answered {| Core.answer_text := "thirty days";
                     Core.answer_sources := ["policy.pdf"] |};
     Api.ResetDone;
     Api.FileList [];
     Api.Failed Api.EmptyState;
     Api.Failed (Api.Unauthorized Core.TokenExpired);
     Api.Failed (Api.Unauthorized Core.TokenInvalid)].
Proof. vm_compute. reflexivity. Qed.

(** The question a logged-in client sends arrives at the core as an ask
    under the client's token. *)
Example question_as_received :
  map (Api.receive 10)
    (Screen.issued (Screen.QuestionSent (Http.Rejects "Failed to fetch")) Demo.asking)
  = [Some {| Api.time := 10; Api.authorization := Some "Bearer ta";
             Api.call := Api.Ask "What is the refund window?" |}].
Proof. vm_compute. reflexivity. Qed.

(** ** More of the client *)

Section MoreClientFacts.
Import Js Http Eff Client RAGInterface Screen AuthContext.

Ltac eff :=
  unfold mbind, M_bind, bind, mret, M_ret, ret, get, modify, throw, try_catch, when.

Lemma logout_spec c :
  logout c
  = (Returned tt,
     with_auth (λ a, {| user := None; token := Null; auth_loading := auth_loading a |})
       (with_storage (λ ls,
          {| items := delete "user_data" (delete "token" (items ls)); quota := quota ls |})
          c)).
Proof. reflexivity. Qed.

(** X1. Logging out after a login with a token takes the two items the
    login wrote out of local storage again and keeps every other item: a
    storage that held neither [token] nor [user_data] before the login is
    exactly as before; the auth state holds no token and no user, the
    document screen and the requests sent are untouched, and logging out
    once more changes nothing. *)
Theorem logout_undoes_login v username c c1 :
  loginWithToken v username c = (Returned tt, c1) →
  ∃ c2, logout c1 = (Returned tt, c2)
        ∧ items (localStorage c2) = delete "user_data" (delete "token" (items (localStorage c)))
        ∧ (items (localStorage c) !! "token" = None →
           items (localStorage c) !! "user_data" = None →
           localStorage c2 = localStorage c)
        ∧ token (auth c2) = Null ∧ user (auth c2) = None
        ∧ rag c2 = rag c ∧ sent c2 = sent c
        ∧ logout c2 = (Returned tt, c2).
Proof.
  intros Hlogin. rewrite logout_spec. eexists. split; [reflexivity|].
  assert (items (localStorage c1)
          = <["user_data" := JSON.stringify [("username", username)]]>
              (<["token" := to_String v]> (items (localStorage c)))
          ∧ quota (localStorage c1) = quota (localStorage c)
          ∧ rag c1 = rag c ∧ sent c1 = sent c ∧ auth_loading (auth c1) = auth_loading (auth c))
    as (Hitems & Hquota & Hrag & Hsent & Hld).
  { revert Hlogin. unfold loginWithToken, setToken, setUser. eff.
    rewrite !setItem_spec.
    destruct (storage_size (<["token" := to_String v]> (items (localStorage c)))
              <=? quota (localStorage c)); [|done].
    rewrite setItem_spec. cbn.
    destruct (storage_size _ <=? quota (localStorage c)); [|done].
    by intros [= <-]. }
  cbn [with_auth with_storage localStorage auth rag sent items token user].
  rewrite Hitems.
  assert (delete "user_data" (delete "token"
            (<["user_data" := JSON.stringify [("username", username)]]>
               (<["token" := to_String v]> (items (localStorage c)))))
          = delete "user_data" (delete "token" (items (localStorage c)))) as Hdel.
  { apply map_eq. intros k.
    destruct (decide (k = "user_data")) as [->|H1]; [by rewrite !lookup_delete_eq|].
    rewrite !(lookup_delete_ne _ "user_data") by done.
    destruct (decide (k = "token")) as [->|H2]; [by rewrite !lookup_delete_eq|].
    rewrite !(lookup_delete_ne _ "token") by done.
    by rewrite !lookup_insert_ne. }
  split_and!; try done.
  - intros Ht Hu. rewrite Hdel, (delete_id _ "token") by done.
    rewrite (delete_id _ "user_data"), Hquota by done. by destruct (localStorage c).
  - rewrite logout_spec. f_equal.
    destruct c1 as [[] [] ? ? ? ?]. unfold with_auth, with_storage. cbn. f_equal.
    f_equal. apply map_eq. intros k.
    rewrite !lookup_delete. by repeat case_decide.
Qed.

Lemma restore_spec parse c :
  restore parse c
  = let stored := of_nullable (items (localStorage c) !! "user_data") in
    if truthy (token (auth c)) && truthy stored then
      match parse (to_String stored) with
      | inl message => (Threw message, c)
      | inr u =>
          (Returned tt,
           with_auth (λ a, {| user := u; token := token a; auth_loading := false |}) c)
      end
    else
      (Returned tt,
       with_auth (λ a, {| user := user a; token := token a; auth_loading := false |}) c).
Proof.
  unfold restore, setUser, setLoading. eff. cbn zeta.
  destruct (truthy (token (auth c))); [|done]. cbn [andb].
  destruct (truthy _); [|done].
  by destruct (parse _) as [message|u].
Qed.

(** X2. After a completed login, the application as it is mounted on its
    next load, that is after the effect of the provider has run over the
    storage the login left, holds the issued token, has the user restored
    from the stored user data (unless the token is the empty string, which
    counts as none), is no longer loading, and has left the storage alone.
    After a logout the mounted application holds no token and no user, and
    the mount effect of the document screen then sends no request. *)
Theorem token_survives_reload parse username password t resp j c c' :
  parse (JSON.stringify [("username", username)]) = inr (Some {| username := username |}) →
  ok resp = true → json resp = inr j → access_token j = Some t →
  login username password (Resolves resp) c = (Returned tt, c') →
  (∃ m, mounted parse (localStorage c') = (Returned tt, m)
        ∧ token (auth m) = Str t
        ∧ user (auth m)
          = (if truthy (Str t) then Some {| username := username |} else None)
        ∧ auth_loading (auth m) = false
        ∧ localStorage m = localStorage c')
  ∧ (∃ m, mounted parse (localStorage (snd (logout c'))) = (Returned tt, m)
          ∧ token (auth m) = Null ∧ user (auth m) = None
          ∧ auth_loading (auth m) = false
          ∧ ∀ a, issued (Mounted a) m = []).
Proof.
  intros Hparse Hok Hj Ht Hlogin.
  rewrite (login_ok _ _ resp j), Ht, loginWithToken_sent in Hlogin by done.
  cbn [of_field] in Hlogin.
  destruct (loginWithToken (Str t) username c) as [r c1] eqn:Hlw.
  injection Hlogin as -> <-.
  apply loginWithToken_completed in Hlw. subst c1.
  split.
  - unfold mounted. rewrite restore_spec. unfold initial, logged_in. cbn.
    rewrite lookup_insert_eq, lookup_insert_ne, lookup_insert_eq by done.
    cbn [of_nullable to_String]. rewrite Hparse.
    assert (truthy (Str (JSON.stringify [("username", username)])) = true) as ->
      by reflexivity.
    rewrite andb_true_r.
    change (truthy (Str t)) with (negb (String.eqb t "")).
    destruct (String.eqb t ""); eexists; (split; [reflexivity|done]).
  - unfold mounted. rewrite restore_spec, logout_spec. unfold initial, logged_in. cbn.
    rewrite lookup_delete_eq, lookup_delete_ne, lookup_delete_eq by done. cbn.
    eexists. split; [reflexivity|]. by split_and!.
Qed.

(** X3. A login whose request is rejected by the network or answered
    with a status that is not OK throws and leaves local storage, the auth
    state and the document screen as they were, the one request sent
    apart.  The message thrown is the network's, or the parse error's, or
    the [detail] of the answer, or "Login failed" when there is no
    [detail] or it is empty. *)
Theorem failed_login_changes_nothing username password answer c :
  (∀ r, answer = Resolves r → ok r = false) →
  ∃ message,
    login username password answer c
    = (Threw message, with_sent (λ l, l ++ [login_request username password]) c)
    ∧ message
      = match answer with
        | Rejects e => e
        | Resolves r =>
            match json r with
            | inl e => e
            | inr body => or_else (of_field (detail body)) "Login failed"
            end
        end.
Proof.
  intros Hbad. unfold login, fetch, send, await, response_json. eff.
  destruct answer as [e|r].
  - by eexists.
  - rewrite (Hbad r eq_refl). cbn [negb]. destruct (json r) as [e|body]; by eexists.
Qed.

Lemma register_spec username email password answer c :
  register username email password answer c
  = (match answer with
     | Rejects e => Threw e
     | Resolves r =>
         match json r with
         | inl e => Threw e
         | inr body =>
             if ok r then Returned body
             else Threw (or_else (of_field (detail body)) "Registration failed")
         end
     end,
     with_sent (λ l, l ++ [register_request username email password]) c).
Proof.
  unfold register, fetch, send, await, response_json. eff.
  destruct answer as [e|r]; [done|]. by destruct (ok r), (json r).
Qed.

(** X4. Registering never logs in: whatever the server answers, local
    storage, the auth state, the document screen and the route stay as
    they were and exactly one request, the registration, is sent.  It
    returns the body exactly when the answer is OK and parses. *)
Theorem register_never_logs_in username email password answer c :
  let c' := snd (register username email password answer c) in
  localStorage c' = localStorage c ∧ auth c' = auth c ∧ rag c' = rag c
  ∧ navigated c' = navigated c
  ∧ sent c' = sent c ++ [register_request username email password]
  ∧ (∀ body, fst (register username email password answer c) = Returned body ↔
             ∃ r, answer = Resolves r ∧ ok r = true ∧ json r = inr body).
Proof.
  intros c'. subst c'. rewrite register_spec. cbn [fst snd]. split_and!; try done.
  intros body. destruct answer as [e|r].
  - split; [done | by intros (? & ? & _)].
  - destruct (json r) as [e|b] eqn:Hj.
    + split; [done|]. intros (r' & [= <-] & _ & H). congruence.
    + destruct (ok r) eqn:Hok.
      * split.
        -- intros [= ->]. by exists r.
        -- intros (r' & [= <-] & _ & H). congruence.
      * split; [done|]. intros (r' & [= <-] & H & _). congruence.
Qed.

(** X5. Submitting the registration form never throws and never
    touches local storage or the auth state; it goes to the login route
    exactly when the registration returned, with an empty error, and
    otherwise stays where it is and shows the message that was thrown.
    The typed username and password stay in the form either way. *)
Theorem handleSubmit_outcome f answer c :
  ∃ f' c',
    Register.handleSubmit f answer c = (Returned f', c')
    ∧ localStorage c' = localStorage c ∧ auth c' = auth c
    ∧ Register.username f' = Register.username f
    ∧ Register.password f' = Register.password f
    ∧ match fst (register (Register.username f) (Register.email f)
                   (Register.password f) answer c) with
      | Returned _ =>
          navigated c' = navigated c ++ ["/login"] ∧ Register.error f' = ""
      | Threw message =>
          navigated c' = navigated c ∧ Register.error f' = message
      end.
Proof.
  unfold Register.handleSubmit, AuthCallback.navigate. eff.
  rewrite register_spec. cbn [fst].
  destruct answer as [e|r].
  - by eexists _, _.
  - destruct (json r) as [e|body]; [by eexists _, _|].
    destruct (ok r); by eexists _, _.
Qed.

Lemma is_white_elem w : is_white w = true ↔ w ∈ white_space.
Proof.
  unfold is_white. rewrite existsb_exists. split.
  - intros (x & Hin & E). apply String.eqb_eq in E as ->. by apply list_elem_of_In.
  - intros H. exists w. split; [by apply list_elem_of_In | apply String.eqb_refl].
Qed.

Lemma trimStart_white w s : w ∈ white_space → trimStart (w +:+ s) = trimStart s.
Proof.
  intros H. unfold white_space in H. cbn [map] in H.
  repeat (apply elem_of_cons in H as [-> | H]); try reflexivity.
  by apply elem_of_nil in H.
Qed.

(** How [trimStart] goes on: the string is empty, or a white space
    character is taken off its front, or the string is returned. *)
Lemma trimStart_cases s :
  s = ""
  ∨ (∃ w s', w ∈ white_space ∧ s = w +:+ s' ∧ trimStart s = trimStart s'
             ∧ String.length s' < String.length s)
  ∨ (trimStart s = s ∧ s ≠ "").
Proof.
  destruct s as [|a s1]; [by left|]. right. cbn [trimStart].
  destruct (is_white (String a "")) eqn:E1.
  { left. exists (String a ""), s1. apply is_white_elem in E1.
    split_and!; try done. cbn. lia. }
  destruct s1 as [|b s2]; [by right|].
  destruct (is_white (String a (String b ""))) eqn:E2.
  { left. exists (String a (String b "")), s2. apply is_white_elem in E2.
    split_and!; try done. cbn. lia. }
  destruct s2 as [|c s3]; [by right|].
  destruct (is_white (String a (String b (String c "")))) eqn:E3.
  { left. exists (String a (String b (String c ""))), s3. apply is_white_elem in E3.
    split_and!; try done. cbn. lia. }
  by right.
Qed.

Lemma trimStart_idemp s : trimStart (trimStart s) = trimStart s.
Proof.
  remember (String.length s) as n eqn:Hn. revert s Hn.
  induction n as [n IH] using lt_wf_ind. intros s ->.
  destruct (trimStart_cases s) as [->|[(w & s' & _ & _ & E & Hlt)|[E _]]].
  - done.
  - rewrite E. by apply (IH _ Hlt).
  - by rewrite !E.
Qed.

Lemma trimStart_blank s :
  trimStart s = ""
  ↔ ∃ ws, Forall (λ w, w ∈ white_space) ws ∧ s = foldr String.append "" ws.
Proof.
  split.
  - remember (String.length s) as n eqn:Hn. revert s Hn.
    induction n as [n IH] using lt_wf_ind. intros s -> H.
    destruct (trimStart_cases s) as [->|[(w & s' & Hw & -> & E & Hlt)|[E Hne]]].
    + by exists [].
    + rewrite E in H. destruct (IH _ Hlt s' eq_refl H) as (ws & Hws & ->).
      exists (w :: ws). split; [by constructor | done].
    + congruence.
  - intros (ws & H & ->). induction H as [|w ws Hw _ IH]; [done|].
    cbn [foldr]. by rewrite trimStart_white.
Qed.

Lemma trimEnd_empty s : trimEnd s = "" ↔ trimStart s = "".
Proof.
  destruct s as [|a s]; [done|]. cbn [trimEnd].
  destruct (String.eqb (trimStart (String a s)) "") eqn:E.
  - by apply String.eqb_eq in E.
  - apply String.eqb_neq in E. by split.
Qed.

(** [trim] leaves nothing exactly of the strings made of white space
    characters. *)
Lemma trim_blank s :
  trim s = ""
  ↔ ∃ ws, Forall (λ w, w ∈ white_space) ws ∧ s = foldr String.append "" ws.
Proof. unfold trim. rewrite trimEnd_empty, trimStart_idemp. apply trimStart_blank. Qed.

Lemma sendQuestion_guard a c :
  String.eqb (trim (question (rag c))) "" || loading (rag c) = true →
  sendQuestion a c = (Returned tt, c).
Proof. intros H. unfold sendQuestion. eff. by rewrite H. Qed.

Lemma sendQuestion_sends a c :
  trim (question (rag c)) ≠ "" → loading (rag c) = false →
  fst (sendQuestion a c) = Returned tt
  ∧ sent (snd (sendQuestion a c))
    = sent c ++ [ask_request (token (auth c)) (question (rag c))].
Proof.
  intros Hq Hl. unfold sendQuestion, fetch, send, await, response_json. eff.
  apply String.eqb_neq in Hq. rewrite Hq, Hl. cbn [orb].
  destruct a as [e|r].
  - by destruct (includes "401" e).
  - destruct (ok r); cbn [negb]; [|done].
    destruct (json r) as [e|d]; [|done]. by destruct (includes "401" e).
Qed.

(** X7. Sending a question does nothing at all, no request and no
    change of state, exactly when the question is made of white space
    characters only, those that [trim] strips, the Unicode ones among
    them (or is empty), or a question is already loading. *)
Theorem blank_question_sends_nothing a c :
  sendQuestion a c = (Returned tt, c)
  ↔ (∃ ws, Forall (λ w, w ∈ white_space) ws
           ∧ question (rag c) = foldr String.append "" ws)
    ∨ loading (rag c) = true.
Proof.
  rewrite <- trim_blank. split.
  - intros H.
    destruct (decide (trim (question (rag c)) = "")) as [|Hq]; [by left|].
    destruct (loading (rag c)) eqn:Hl; [by right|]. exfalso.
    destruct (sendQuestion_sends a c Hq Hl) as [_ Hs]. rewrite H in Hs. cbn in Hs.
    apply (f_equal length) in Hs. rewrite length_app in Hs. cbn in Hs. lia.
  - intros H. apply sendQuestion_guard.
    destruct H as [-> | ->]; [done | by rewrite orb_true_r].
Qed.

(** X6. A question answered OK with a parsable body adds exactly two
    messages to the conversation, the question as typed and the reply
    with the sources of the answer (none when the field is absent),
    empties the question box, ends loading with no error, sends one
    request and leaves the session alone. *)
Theorem answered_question_is_recorded r d c :
  trim (question (rag c)) ≠ "" → loading (rag c) = false →
  ok r = true → json r = inr d →
  ∃ c', sendQuestion (Resolves r) c = (Returned tt, c')
        ∧ messages (rag c')
          = messages (rag c)
            ++ [View.asked c;
                {| sender := bot_sender; text := of_field (Http.answer d);
                   msg_sources := Some (default [] (sources d)); isError := false |}]
        ∧ question (rag c') = "" ∧ loading (rag c') = false ∧ error (rag c') = ""
        ∧ sent c' = sent c ++ [ask_request (token (auth c)) (question (rag c))]
        ∧ auth c' = auth c ∧ localStorage c' = localStorage c.
Proof.
  intros Hq Hl Hok Hd. unfold sendQuestion, fetch, send, await, response_json. eff.
  apply String.eqb_neq in Hq. rewrite Hq, Hl, Hok, Hd. cbn [orb negb].
  eexists. split; [reflexivity|]. cbn. rewrite <- app_assoc. done.
Qed.

Lemma sendQuestion_expired c e :
  trim (question (rag c)) ≠ "" → loading (rag c) = false →
  includes "401" e = true →
  ∀ a, (a = Rejects e ∨ ∃ r, a = Resolves r ∧ ok r = true ∧ json r = inl e) →
  ∃ c', sendQuestion a c = (Returned tt, c')
        ∧ error (rag c') = "Session expired. Please login again."
        ∧ messages (rag c') = messages (rag c) ++ [View.asked c]
        ∧ loading (rag c') = false
        ∧ token (auth c') = Null ∧ user (auth c') = None
        ∧ items (localStorage c')
          = delete "user_data" (delete "token" (items (localStorage c))).
Proof.
  intros Hq Hl He a Ha. unfold sendQuestion, fetch, send, await, response_json. eff.
  apply String.eqb_neq in Hq. rewrite Hq, Hl. cbn [orb].
  destruct Ha as [-> | (r & -> & Hok & Hj)].
  - rewrite He. eexists. split; [reflexivity|]. done.
  - rewrite Hok, Hj. cbn [negb]. rewrite He.
    eexists. split; [reflexivity|]. done.
Qed.

(** X8. The session-expired path of a question is taken by the text
    of the error, not by the status: a network failure whose message
    contains 401 logs the client out (token and user data removed from
    storage, no token, no user) and keeps the question in the
    conversation, while an answer with status 401 leaves the session and
    the storage as they were and shows the generic failure. *)
Theorem session_expiry_goes_by_message c e r :
  trim (question (rag c)) ≠ "" → loading (rag c) = false →
  includes "401" e = true → status r = 401 →
  (∃ c', sendQuestion (Rejects e) c = (Returned tt, c')
         ∧ error (rag c') = "Session expired. Please login again."
         ∧ messages (rag c') = messages (rag c) ++ [View.asked c]
         ∧ loading (rag c') = false
         ∧ token (auth c') = Null ∧ user (auth c') = None
         ∧ items (localStorage c')
           = delete "user_data" (delete "token" (items (localStorage c))))
  ∧ (let c' := snd (sendQuestion (Resolves r) c) in
     auth c' = auth c ∧ localStorage c' = localStorage c
     ∧ error (rag c') = "Failed to get response. Please ensure the backend is running.").
Proof.
  intros Hq Hl He Hs. split.
  - apply (sendQuestion_expired c e Hq Hl He). by left.
  - assert (ok r = false) as Hok by (unfold ok; by rewrite Hs).
    by rewrite sendQuestion_not_ok.
Qed.

Lemma sendQuestion_returns a c : fst (sendQuestion a c) = Returned tt.
Proof.
  unfold sendQuestion, fetch, send, await, response_json. eff.
  destruct (String.eqb (trim (question (rag c))) "" || loading (rag c)); [done|].
  destruct a as [e|r].
  - by destruct (includes "401" e).
  - destruct (ok r); cbn [negb]; [|done].
    destruct (json r) as [e|d]; [|done]. by destruct (includes "401" e).
Qed.

(** X9. Whatever the answer, sending a question returns normally,
    never drops a message of the conversation, never leaves the screen
    loading when it was not, and changes neither the file list, nor
    whether files count as uploaded, nor the upload state, nor the
    route. *)
Theorem sendQuestion_keeps_history a c :
  let c' := snd (sendQuestion a c) in
  fst (sendQuestion a c) = Returned tt
  ∧ messages (rag c) `prefix_of` messages (rag c')
  ∧ (loading (rag c) = false → loading (rag c') = false)
  ∧ uploadedFiles (rag c') = uploadedFiles (rag c)
  ∧ fileUploaded (rag c') = fileUploaded (rag c)
  ∧ isUploading (rag c') = isUploading (rag c)
  ∧ uploadStatus (rag c') = uploadStatus (rag c)
  ∧ navigated c' = navigated c.
Proof.
  intros c'. subst c'.
  unfold sendQuestion, fetch, send, await, response_json. eff.
  destruct (String.eqb (trim (question (rag c))) "" || loading (rag c)) eqn:G.
  { split_and!; try done. }
  assert (∀ (l : list Message) x y, l `prefix_of` (l ++ [x]) ++ [y]) as P2
    by (intros l x y; rewrite <- app_assoc; by apply prefix_app_r).
  assert (∀ (l : list Message) x, l `prefix_of` l ++ [x]) as P1
    by (intros l x; by apply prefix_app_r).
  destruct a as [e|r].
  - destruct (includes "401" e); unfold logout, removeItem, setToken, setUser; eff;
      split_and!; try done; cbn; auto.
  - destruct (ok r); cbn [negb].
    + destruct (json r) as [e|d].
      * destruct (includes "401" e); unfold logout, removeItem, setToken, setUser; eff;
          split_and!; try done; cbn; auto.
      * split_and!; try done; cbn; auto.
    + cbn. split_and!; try done; cbn; auto.
Qed.


(** X10. Every handler of the document screen but the load listener of
    the upload returns normally, whatever the environment answers; that
    listener returns normally exactly when the body of the response
    parses and, for status 200, carries a file list. *)
Theorem handlers_return_normally e c :
  ((∀ t resp a, e ≠ UploadLoaded t resp a) → fst (react e c) = Returned tt)
  ∧ (∀ t resp a, e = UploadLoaded t resp a →
       (fst (react e c) = Returned tt
        ↔ ∃ body, json resp = inr body
                  ∧ (status resp = 200 → is_Some (files body)))).
Proof.
  split.
  - intros Hne. destruct e as [a|t a|files|t resp a| |a|confirmed a]; cbn [react].
    + unfold initial_fetchFiles, fetch, send, await, response_json. eff.
      destruct (truthy (token (auth c))); [|done].
      destruct a as [e|r]; [done|]. destruct (ok r); [|done].
      destruct (json r) as [e|d]; [done|]. by destruct (files d) as [[|]|].
    + unfold fetchFiles, send. eff. by rewrite fetchFiles_settle_spec.
    + unfold uploadFile, send. eff.
      destruct (length files =? 0); [done|]. by destruct (0 <? _).
    + by destruct (Hne t resp a).
    + done.
    + apply sendQuestion_returns.
    + unfold resetKnowledgeBase, fetch, send, await. eff.
      destruct confirmed; [|done]. destruct a as [e|r]; [done|]. by destruct (ok r).
  - intros t resp a ->. cbn [react].
    unfold upload_onload, response_json, send, then_settle. eff.
    destruct (status resp =? 200) eqn:Hs.
    + apply Nat.eqb_eq in Hs. destruct (json resp) as [m|body].
      * split; [done | by intros (? & ? & _)].
      * destruct (files body) as [names|] eqn:Hf.
        -- split; [|done]. intros _. exists body. by rewrite Hf.
        -- split; [done|]. intros (b & [= <-] & H). rewrite Hf in H.
           by destruct (H Hs) as [? ?].
    + apply Nat.eqb_neq in Hs. destruct (json resp) as [m|body].
      * split; [done | by intros (? & ? & _)].
      * split; [|done]. intros _. by exists body.
Qed.

Lemma uploadFile_sent_state files c :
  files ≠ [] → Forall (λ f, is_pdf_name f = true) files →
  uploadFile files c
  = (Returned tt,
     with_sent (λ l, l ++ [upload_request (token (auth c)) files])
       (with_rag (λ r,
          {| messages := []; question := question r; loading := loading r;
             fileUploaded := fileUploaded r; uploadStatus := "Uploading files...";
             uploadedFiles := uploadedFiles r; uploadProgress := 0;
             error := ""; isUploading := true |}) c)).
Proof.
  intros Hne Hall. unfold uploadFile, send. eff.
  destruct files as [|f files]; [done|].
  cbn [length Nat.eqb]. by rewrite invalid_files_empty.
Qed.

(** X11. After a batch of PDFs was sent, a response with a status other
    than 200 shows the [detail] (or "Upload failed") but leaves the
    screen uploading: the file input, the reset button, the question box
    and the send button stay disabled, no file list is fetched and the
    list shown is the old one.  A network error of the upload, by
    contrast, ends the uploading state. *)
Theorem rejected_upload_stays_uploading files t resp a c :
  files ≠ [] → Forall (λ f, is_pdf_name f = true) files → status resp ≠ 200 →
  let c1 := snd (uploadFile files c) in
  let c2 := snd (upload_onload t resp a c1) in
  isUploading (rag c2) = true
  ∧ View.file_input_disabled c2 = true ∧ View.reset_disabled c2 = true
  ∧ View.question_disabled c2 = true ∧ View.send_disabled c2 = true
  ∧ error (rag c2)
    = match json resp with
      | inr body => or_else (of_field (detail body)) "Upload failed"
      | inl _ => ""
      end
  ∧ sent c2 = sent c1
  ∧ uploadedFiles (rag c2) = uploadedFiles (rag c)
  ∧ isUploading (rag (snd (upload_onerror c1))) = false.
Proof.
  intros Hne Hall Hs c1 c2. subst c1 c2. rewrite uploadFile_sent_state by done.
  cbn [snd]. unfold upload_onload, response_json, View.file_input_disabled,
    View.reset_disabled, View.question_disabled, View.send_disabled. eff.
  apply Nat.eqb_neq in Hs as ->.
  destruct (json resp) as [m|body]; cbn; rewrite ?orb_true_r; done.
Qed.

(** X12. After a batch of PDFs was sent and answered with status 200 and
    a file list, the upload is over, files count as uploaded, the
    conversation is empty, the status line counts the files of the
    response, the question box and the file input are enabled unless a
    question is loading, and exactly two requests went out: the upload
    and the fetch of the file list. *)
Theorem accepted_upload_enables_questions files resp body names a c :
  files ≠ [] → Forall (λ f, is_pdf_name f = true) files →
  status resp = 200 → json resp = inr body → Http.files body = Some names →
  let c1 := snd (uploadFile files c) in
  let c2 := snd (upload_onload (token (auth c)) resp a c1) in
  fst (upload_onload (token (auth c)) resp a c1) = Returned tt
  ∧ isUploading (rag c2) = false ∧ fileUploaded (rag c2) = true
  ∧ messages (rag c2) = [] ∧ error (rag c2) = ""
  ∧ uploadStatus (rag c2) = uploaded_message (length names)
  ∧ View.question_disabled c2 = loading (rag c)
  ∧ View.file_input_disabled c2 = loading (rag c)
  ∧ sent c2 = sent c ++ [upload_request (token (auth c)) files;
                         files_request (token (auth c))]
  ∧ uploadedFiles (rag c2) = listed a (uploadedFiles (rag c)).
Proof.
  intros Hne Hall Hs Hj Hf c1 c2. subst c1 c2. rewrite uploadFile_sent_state by done.
  cbn [snd]. unfold upload_onload, response_json, send, then_settle,
    View.file_input_disabled, View.question_disabled.
  rewrite Hs, Hj. eff. cbn [Nat.eqb]. rewrite Hf.
  unfold setUploadStatus, setFileUploaded, setUploadProgress, setIsUploading. eff.
  rewrite fetchFiles_settle_spec. cbn. rewrite <- app_assoc, !orb_false_r. done.
Qed.

(** X13. The mount effect does nothing at all without a token ([null],
    [undefined] or empty).  With a token it sends one request for the
    file list, takes the list the answer gives (keeping the old one when
    the answer is unusable) and marks files as uploaded exactly when they
    were already or the answer lists at least one file: it never unmarks
    them. *)
Theorem mount_loads_files_only_with_token a c :
  let c' := snd (initial_fetchFiles a c) in
  (truthy (token (auth c)) = false → c' = c)
  ∧ (truthy (token (auth c)) = true →
       sent c' = sent c ++ [files_request (token (auth c))]
       ∧ uploadedFiles (rag c') = listed a (uploadedFiles (rag c))
       ∧ (fileUploaded (rag c') = true
          ↔ fileUploaded (rag c) = true
            ∨ ∃ r d f fs, a = Resolves r ∧ ok r = true ∧ json r = inr d
                          ∧ files d = Some (f :: fs))).
Proof.
  intros c'. subst c'. unfold initial_fetchFiles, fetch, send, await, response_json. eff.
  split; intros ->; [done|].
  destruct a as [e|r].
  - split_and!; try done. cbn. split; [by left|].
    intros [?|(? & ? & ? & ? & ? & _)]; done.
  - destruct (ok r) eqn:Hok.
    + destruct (json r) as [e|d] eqn:Hj.
      * cbn. unfold listed. rewrite Hok, Hj. split_and!; try done.
        split; [by left|]. intros [?|(r' & d & ? & ? & [= <-] & _ & ? & _)]; [done|congruence].
      * destruct (files d) as [[|f fs]|] eqn:Hf; cbn; unfold listed; rewrite Hok, Hj, Hf;
          (split_and!; try done).
        -- split; [by left|].
           intros [?|(r' & d' & ? & ? & [= <-] & _ & ? & ?)]; [done|congruence].
        -- split; [|done]. intros _. right. by exists r, d, f, fs.
        -- split; [by left|].
           intros [?|(r' & d' & ? & ? & [= <-] & _ & ? & ?)]; [done|congruence].
    + cbn. unfold listed. rewrite Hok. split_and!; try done.
      split; [by left|]. intros [?|(r' & ? & ? & ? & [= <-] & ? & _)]; [done|congruence].
Qed.

(** X14. A reset that is not confirmed changes nothing and sends
    nothing; a confirmed reset that the network rejects or the server
    answers with a status that is not OK returns normally, shows the
    reset error and keeps the file list, the conversation and the
    uploaded mark. *)
Theorem failed_reset_keeps_everything confirmed a c :
  confirmed = false ∨ (∀ r, a = Resolves r → ok r = false) →
  let c' := snd (resetKnowledgeBase confirmed a c) in
  fst (resetKnowledgeBase confirmed a c) = Returned tt
  ∧ uploadedFiles (rag c') = uploadedFiles (rag c)
  ∧ messages (rag c') = messages (rag c)
  ∧ fileUploaded (rag c') = fileUploaded (rag c)
  ∧ (confirmed = false → c' = c)
  ∧ (confirmed = true →
       error (rag c') = "Failed to reset knowledge base. Please try again."
       ∧ sent c' = sent c ++ [reset_request (token (auth c))]).
Proof.
  intros H c'. subst c'. unfold resetKnowledgeBase, fetch, send, await. eff.
  destruct confirmed; [|done].
  destruct H as [|H]; [done|].
  destruct a as [e|r]; [done|]. by rewrite (H r eq_refl).
Qed.

(** X15. After a logout every request a handler of the document screen
    issues for the render it runs in bears the literal header value
    "Bearer null", and the mount effect issues none.  A call of
    [fetchFiles] and the load of an upload keep the token of the render
    they were made in: an upload whose response loads with status 200
    after the logout still has the file list requested with the token it
    was sent with. *)
Theorem logged_out_requests_bear_null e a c :
  let c1 := snd (logout c) in
  Forall (λ r, header "Authorization" (headers r)
               = Some match e with
                      | FilesRefreshed t _ | UploadLoaded t _ _ => "Bearer " +:+ to_String t
                      | _ => "Bearer null"
                      end)
    (issued e c1)
  ∧ issued (Mounted a) c1 = []
  ∧ (∀ t resp body, status resp = 200 → json resp = inr body →
       ∃ r, issued (UploadLoaded t resp a) c1 = [r]
            ∧ url r = "/api/files"
            ∧ header "Authorization" (headers r) = Some ("Bearer " +:+ to_String t)).
Proof.
  intros c1. subst c1. rewrite logout_spec. cbn [snd]. split_and!.
  - eapply Forall_impl; [apply issued_bear_closure_token|].
    intros r [H _]. by destruct e.
  - apply (issued_nothing (Mounted a)). done.
  - intros t resp body Hs Hj. exists (files_request t). split_and!; try done.
    apply (issued_one (UploadLoaded t resp a)). cbn [react].
    by apply (upload_onload_lists _ resp body).
Qed.










(** X17. The earlier callback component and the current one do the
    same, a login and a move to the home route, whenever the token and
    the username are both present and not empty and local storage takes
    the items; when either is missing the earlier one only moves to the
    login route, storing nothing and showing no error. *)
Theorem earlier_callback_compared params c :
  (∀ t u, AuthCallback.searchParams_get "token" params = Str t → t ≠ "" →
          AuthCallback.searchParams_get "username" params = Str u → u ≠ "" →
          has_room t u (localStorage c) →
          Earlier.AuthCallback params c = AuthCallback.AuthCallback params c
          ∧ Earlier.AuthCallback params c
            = (Returned tt, with_navigated (λ l, l ++ ["/"]) (logged_in t u c)))
  ∧ (truthy (AuthCallback.searchParams_get "token" params) = false
     ∨ truthy (AuthCallback.searchParams_get "username" params) = false →
     Earlier.AuthCallback params c
     = (Returned tt, with_navigated (λ l, l ++ ["/login"]) c)).
Proof.
  split.
  - intros t u Ht Hne Hu Hune Hroom.
    assert (or_else (AuthCallback.searchParams_get "username" params) "User" = u) as Hor.
    { rewrite Hu. cbn. by apply String.eqb_neq in Hune as ->. }
    pose proof (AuthCallback_token params t c Ht Hne) as Hnew. cbn zeta in Hnew.
    rewrite Hor in Hnew. rewrite (Hnew Hroom).
    enough (Earlier.AuthCallback params c
            = (Returned tt, with_navigated (λ l, l ++ ["/"]) (logged_in t u c))) as E
      by done.
    unfold Earlier.AuthCallback. rewrite Ht, Hu. cbn [truthy to_String].
    apply String.eqb_neq in Hne as ->. apply String.eqb_neq in Hune as ->. cbn [negb andb].
    unfold AuthCallback.navigate. eff. by rewrite loginWithToken_room.
  - intros H. unfold Earlier.AuthCallback.
    assert (truthy (AuthCallback.searchParams_get "token" params)
            && truthy (AuthCallback.searchParams_get "username" params) = false) as ->.
    { destruct H as [-> | ->]; [done | apply andb_false_r]. }
    done.
Qed.

End MoreClientFacts.

Section MoreWitnesses.
Import Js Http Eff Client RAGInterface Screen AuthContext.

Lemma logout_undoes_login_witness :
  localStorage (snd (logout (snd (loginWithToken (Str "ta") "alice" Demo.fresh))))
  = localStorage Demo.fresh.
Proof.
  destruct (logout_undoes_login (Str "ta") "alice" Demo.fresh
              (snd (loginWithToken (Str "ta") "alice" Demo.fresh)) eq_refl)
    as (c2 & Hl & _ & Hback & _).
  rewrite Hl. apply Hback; reflexivity.
Defined.

Lemma token_survives_reload_witness :
  ∃ m, mounted Demo.parse
         (localStorage
            (snd (login "alice" "s3cret"
                    (Resolves (Demo.ok_response (Demo.json_with None (Some "ta"))))
                    Demo.fresh)))
       = (Returned tt, m)
       ∧ token (auth m) = Str "ta"
       ∧ user (auth m) = Some {| username := "alice" |}
       ∧ auth_loading (auth m) = false.
Proof.
  destruct (proj1 (token_survives_reload Demo.parse "alice" "s3cret" "ta"
                     (Demo.ok_response (Demo.json_with None (Some "ta")))
                     (Demo.json_with None (Some "ta")) Demo.fresh _
                     eq_refl eq_refl eq_refl eq_refl eq_refl))
    as (m & Hm & Ht & Hu & Hl & _).
  exists m. split_and!; assumption.
Defined.

Lemma failed_login_changes_nothing_witness :
  ∃ message,
    login "alice" "wrong" (Resolves (Demo.failure 401 "Incorrect username or password"))
      Demo.fresh
    = (Threw message,
       with_sent (λ l, l ++ [login_request "alice" "wrong"]) Demo.fresh)
    ∧ message = "Incorrect username or password".
Proof.
  refine (failed_login_changes_nothing "alice" "wrong"
            (Resolves (Demo.failure 401 "Incorrect username or password")) Demo.fresh _).
  intros r [= <-]. reflexivity.
Defined.

Lemma register_never_logs_in_witness :
  fst (register "alice" "a@example.org" "s3cret"
         (Resolves (Demo.ok_response (Demo.json_with None None))) Demo.fresh)
  = Returned (Demo.json_with None None).
Proof.
  apply (proj2 (proj2 (proj2 (proj2 (proj2
           (register_never_logs_in "alice" "a@example.org" "s3cret"
              (Resolves (Demo.ok_response (Demo.json_with None None))) Demo.fresh)))))).
  exists (Demo.ok_response (Demo.json_with None None)). repeat split.
Defined.

Lemma answered_question_is_recorded_witness :
  ∃ c', sendQuestion
          (Resolves {| status := 200;
                       json := inr {| detail := None; access_token := None; files := None;
                                      answer := Some "thirty days";
                                      sources := Some ["policy.pdf"] |} |})
          Demo.asking
        = (Returned tt, c')
        ∧ length (messages (rag c')) = 2.
Proof.
  assert (Js.trim (question (rag Demo.asking)) ≠ "") as Hq by (vm_compute; discriminate).
  destruct (answered_question_is_recorded
              {| status := 200;
                 json := inr {| detail := None; access_token := None; files := None;
                                answer := Some "thirty days";
                                sources := Some ["policy.pdf"] |} |}
              _ Demo.asking Hq eq_refl eq_refl eq_refl)
    as (c' & Hs & Hm & _).
  exists c'. split; [exact Hs|]. by rewrite Hm.
Defined.

Lemma blank_question_sends_nothing_witness :
  sendQuestion (Rejects "offline") Demo.blank = (Returned tt, Demo.blank).
Proof.
  apply (proj2 (blank_question_sends_nothing (Rejects "offline") Demo.blank)).
  left. exists [bytes [194; 160]; bytes [32]]. split; [|reflexivity].
  repeat constructor; apply is_white_elem; reflexivity.
Defined.

Lemma session_expiry_goes_by_message_witness :
  auth (snd (sendQuestion (Resolves (Demo.failure 401 "Could not validate credentials"))
               Demo.asking))
  = auth Demo.asking.
Proof.
  assert (Js.trim (question (rag Demo.asking)) ≠ "") as Hq by (vm_compute; discriminate).
  exact (proj1 (proj2 (session_expiry_goes_by_message Demo.asking
                         "Unexpected token < in JSON at position 401"
                         (Demo.failure 401 "Could not validate credentials")
                         Hq eq_refl eq_refl eq_refl))).
Defined.

Lemma sendQuestion_keeps_history_witness :
  loading (rag (snd (sendQuestion (Rejects "offline") Demo.asking))) = false.
Proof.
  apply (proj1 (proj2 (proj2
           (sendQuestion_keeps_history (Rejects "offline") Demo.asking)))).
  reflexivity.
Defined.

Lemma handlers_return_normally_witness :
  fst (react (QuestionSent (Rejects "offline")) Demo.asking) = Returned tt
  ∧ fst (react (UploadLoaded (Str "ta")
                  (Demo.ok_response (Demo.json_with (Some ["a.pdf"]) None))
                  (Rejects "offline")) Demo.asking) = Returned tt.
Proof.
  split.
  - apply (proj1 (handlers_return_normally (QuestionSent (Rejects "offline")) Demo.asking)).
    discriminate.
  - apply (proj2 (handlers_return_normally
                    (UploadLoaded (Str "ta")
                       (Demo.ok_response (Demo.json_with (Some ["a.pdf"]) None))
                       (Rejects "offline")) Demo.asking) _ _ _ eq_refl).
    exists (Demo.json_with (Some ["a.pdf"]) None). split; [reflexivity|]. by eexists.
Defined.

Lemma rejected_upload_stays_uploading_witness :
  View.file_input_disabled
    (snd (upload_onload (Str "ta") (Demo.failure 500 "Internal Server Error")
            (Rejects "offline")
            (snd (uploadFile [Demo.policy_pdf] Demo.asking))))
  = true.
Proof.
  refine (proj1 (proj2 (rejected_upload_stays_uploading [Demo.policy_pdf] (Str "ta")
                          (Demo.failure 500 "Internal Server Error") (Rejects "offline")
                          Demo.asking _ _ _))).
  - discriminate.
  - repeat constructor.
  - discriminate.
Defined.

Lemma accepted_upload_enables_questions_witness :
  View.question_disabled
    (snd (upload_onload (token (auth Demo.fresh))
            (Demo.ok_response (Demo.json_with (Some ["policy.pdf"]) None))
            (Rejects "offline")
            (snd (uploadFile [Demo.policy_pdf] Demo.fresh))))
  = false.
Proof.
  refine (proj1 (proj2 (proj2 (proj2 (proj2 (proj2 (proj2
           (accepted_upload_enables_questions [Demo.policy_pdf]
              (Demo.ok_response (Demo.json_with (Some ["policy.pdf"]) None))
              (Demo.json_with (Some ["policy.pdf"]) None) ["policy.pdf"]
              (Rejects "offline") Demo.fresh _ _ _ _ _)))))))).
  - discriminate.
  - repeat constructor.
  - reflexivity.
  - reflexivity.
  - reflexivity.
Defined.

Lemma mount_loads_files_only_with_token_witness :
  snd (initial_fetchFiles (Rejects "offline") Demo.fresh) = Demo.fresh
  ∧ fileUploaded (rag (snd (initial_fetchFiles
       (Resolves (Demo.ok_response (Demo.json_with (Some ["policy.pdf"]) None)))
       (logged_in "ta" "alice" Demo.fresh)))) = true.
Proof.
  split.
  - apply (proj1 (mount_loads_files_only_with_token (Rejects "offline") Demo.fresh)).
    reflexivity.
  - apply (proj2 (proj2 (proj2 (mount_loads_files_only_with_token
             (Resolves (Demo.ok_response (Demo.json_with (Some ["policy.pdf"]) None)))
             (logged_in "ta" "alice" Demo.fresh)) eq_refl))).
    right. exists (Demo.ok_response (Demo.json_with (Some ["policy.pdf"]) None)),
      (Demo.json_with (Some ["policy.pdf"]) None), "policy.pdf", []. repeat split.
Defined.

Lemma failed_reset_keeps_everything_witness :
  uploadedFiles (rag (snd (resetKnowledgeBase true
                             (Resolves (Demo.failure 500 "Internal Server Error"))
                             Demo.asking)))
  = ["policy.pdf"].
Proof.
  refine (proj1 (proj2 (failed_reset_keeps_everything true
                          (Resolves (Demo.failure 500 "Internal Server Error"))
                          Demo.asking _))).
  right. intros r [= <-]. reflexivity.
Defined.

Lemma logged_out_requests_bear_null_witness :
  ∃ r, issued (UploadLoaded (Str "ta")
                 (Demo.ok_response (Demo.json_with (Some ["policy.pdf"]) None))
                 (Rejects "offline"))
         (snd (logout Demo.asking))
       = [r]
       ∧ url r = "/api/files"
       ∧ header "Authorization" (headers r) = Some "Bearer ta".
Proof.
  exact (proj2 (proj2 (logged_out_requests_bear_null
                         (QuestionSent (Rejects "offline")) (Rejects "offline")
                         Demo.asking))
           (Str "ta") (Demo.ok_response (Demo.json_with (Some ["policy.pdf"]) None))
           (Demo.json_with (Some ["policy.pdf"]) None) eq_refl eq_refl).
Defined.


Lemma earlier_callback_compared_witness :
  Earlier.AuthCallback [("token", "ta"); ("username", "alice")] Demo.fresh
  = AuthCallback.AuthCallback [("token", "ta"); ("username", "alice")] Demo.fresh
  ∧ Earlier.AuthCallback [("token", "ta")] Demo.fresh
    = (Returned tt, with_navigated (λ l, l ++ ["/login"]) Demo.fresh).
Proof.
  split.
  - refine (proj1 (proj1 (earlier_callback_compared
                            [("token", "ta"); ("username", "alice")] Demo.fresh)
                     "ta" "alice" _ _ _ _ _)).
    + reflexivity.
    + discriminate.
    + reflexivity.
    + discriminate.
    + split; vm_compute; lia.
  - apply (proj2 (earlier_callback_compared [("token", "ta")] Demo.fresh)).
    right. reflexivity.
Defined.
End MoreWitnesses.
